(** * Map declutter engine: a shallow embedding of [src/map_engine.py]

    The three classes of the Python module become three modules:
    [BoundingBox], [MapElement] and [MapDeclutterEngine].

    Modelling choices.
    - Coordinates are Python integers (the demo scene only builds integer
      boxes); they are embedded as [Z], which is exact for them.
    - A [BoundingBox] is never mutated in place by the module: [move]
      allocates a new box and the engine assigns a new box to the [bbox]
      attribute.  Boxes are therefore plain values.
    - A [MapElement] is a mutable object shared between the caller's list
      and the engine's three lists.  Elements live in a store (a finite map
      from references to records); the engine's lists hold references, so
      that an object listed twice, or listed in two of the engine's lists,
      is one object.  Reading a reference that was never allocated cannot
      happen in Python; the model reads the default record there and no
      statement below depends on it.
    - [get_statistics] divides with [/], which is float division in
      Python 3; the quotient and the product are IEEE binary64 operations
      and are embedded with the kernel's primitive floats. *)

From Stdlib Require Import ZArith List Lia.
From Stdlib Require Import Floats.PrimFloat Floats.FloatOps Floats.SpecFloat.
From Stdlib Require Import Floats.FloatAxioms.
From Stdlib Require Import Numbers.Cyclic.Int63.Uint63.
From stdpp Require Import gmap strings list.

Local Open Scope Z_scope.

(** ** class BoundingBox *)

Module BoundingBox.

Record t : Type := mk { x : Z; y : Z; width : Z; height : Z }.

(** [intersects]: the negation of the four strict separation tests. *)
Definition intersects (self other : t) : bool :=
  negb ((x self + width self <? x other)
        || (x other + width other <? x self)
        || (y self + height self <? y other)
        || (y other + height other <? y self)).

(** [move]: a new box, translated by [(dx, dy)]. *)
Definition move (self : t) (dx dy : Z) : t :=
  mk (x self + dx) (y self + dy) (width self) (height self).

#[global] Instance eq_dec : EqDecision t.
Proof. solve_decision. Defined.

End BoundingBox.

(** ** class MapElement *)

Module MapElement.

(** The class attribute [PRIORITY], a dict from type names to priorities. *)
Definition PRIORITY : gmap string Z :=
  list_to_map [("road", 10); ("river", 10); ("label", 1); ("icon", 2)]%string.

Record t : Type := mk {
  id : string;
  type : string;
  bbox : BoundingBox.t;
  priority : Z;
  movable : bool;
  original_bbox : BoundingBox.t;
  moved : bool
}.

(** [__init__]: [PRIORITY.get(element_type, 0)] is the lookup with default
    [0]; [original_bbox] is rebuilt field by field from [bbox]. *)
Definition init (id element_type : string) (bbox : BoundingBox.t) : t :=
  let priority := default 0 (PRIORITY !! element_type) in
  {| id := id;
     type := element_type;
     bbox := bbox;
     priority := priority;
     movable := priority <? 5;
     original_bbox :=
       BoundingBox.mk (BoundingBox.x bbox) (BoundingBox.y bbox)
                      (BoundingBox.width bbox) (BoundingBox.height bbox);
     moved := false |}.

(** Attribute assignments [e.bbox = b] and [e.moved = v] on a record. *)
Definition set_bbox (b : BoundingBox.t) (e : t) : t :=
  {| id := id e; type := type e; bbox := b; priority := priority e;
     movable := movable e; original_bbox := original_bbox e;
     moved := moved e |}.

Definition set_moved (v : bool) (e : t) : t :=
  {| id := id e; type := type e; bbox := bbox e; priority := priority e;
     movable := movable e; original_bbox := original_bbox e;
     moved := v |}.

#[global] Instance inhabited : Inhabited t :=
  populate (init EmptyString EmptyString (BoundingBox.mk 0 0 0 0)).

End MapElement.

(** ** The object store *)

(** References to [MapElement] objects, and the store that holds them. *)
Abbreviation ref := nat (only parsing).
Abbreviation store := (gmap nat MapElement.t) (only parsing).

(** [setattr_bbox h r b] is the statement [r.bbox = b]; [setattr_moved]
    likewise for [r.moved = v]. *)
Definition setattr_bbox (h : store) (r : ref) (b : BoundingBox.t) : store :=
  <[r := MapElement.set_bbox b (h !!! r)]> h.

Definition setattr_moved (h : store) (r : ref) (v : bool) : store :=
  <[r := MapElement.set_moved v (h !!! r)]> h.

(** ** Python numbers returned by [get_statistics] *)

Inductive pynum : Type :=
| PyInt (n : Z)
| PyFloat (f : float).

(** Conversion of a non-negative Python int to a float; exact below 2^53,
    which every list length is. *)
Definition float_of_int (n : Z) : float :=
  PrimFloat.of_uint63 (Uint63.of_Z n).

(** True division [a / b] of two ints, then [* 100] with the int [100]
    converted to a float. *)
Definition truediv (a b : Z) : float :=
  PrimFloat.div (float_of_int a) (float_of_int b).

Definition mul_int (f : float) (n : Z) : float :=
  PrimFloat.mul f (float_of_int n).


(** ** class MapDeclutterEngine *)

Module MapDeclutterEngine.

Definition MOVEMENT_OFFSETS : list (Z * Z) :=
  [ (0, -15);    (* up *)
    (0, 15);     (* down *)
    (15, 0);     (* right *)
    (-15, 0);    (* left *)
    (15, -15);   (* diagonal top-right *)
    (-15, -15);  (* diagonal top-left *)
    (15, 15);    (* diagonal bottom-right *)
    (-15, 15)    (* diagonal bottom-left *) ].

Record t : Type := mk {
  elements : list ref;
  fixed_elements : list ref;
  movable_elements : list ref
}.

(** [__init__]: the two list comprehensions read [e.movable] in the store
    the engine is built in. *)
Definition init (h : store) (elements : list ref) : t :=
  {| elements := elements;
     fixed_elements :=
       List.filter (fun e => negb (MapElement.movable (h !!! e))) elements;
     movable_elements :=
       List.filter (fun e => MapElement.movable (h !!! e)) elements |}.

Definition detect_overlap (h : store) (elem_a elem_b : ref) : bool :=
  BoundingBox.intersects (MapElement.bbox (h !!! elem_a))
                         (MapElement.bbox (h !!! elem_b)).

(** [find_overlaps]: the loop appends, in order, every [other] whose id
    differs from the element's and whose box intersects it. *)
Definition find_overlaps (self : t) (h : store) (element : ref) : list ref :=
  fold_left
    (fun overlaps other =>
       if negb (String.eqb (MapElement.id (h !!! other))
                           (MapElement.id (h !!! element)))
          && detect_overlap h element other
       then overlaps ++ [other]
       else overlaps)
    (elements self) [].

(** [_is_valid_position]: the loop returns [False] at the first fixed
    element the box intersects; [element_id] is not used by the body. *)
Fixpoint is_valid_position_loop (h : store) (bbox : BoundingBox.t)
    (fixed : list ref) : bool :=
  match fixed with
  | [] => true
  | f :: rest =>
      if BoundingBox.intersects bbox (MapElement.bbox (h !!! f))
      then false
      else is_valid_position_loop h bbox rest
  end.

Definition _is_valid_position (self : t) (h : store) (bbox : BoundingBox.t)
    (element_id : string) : bool :=
  is_valid_position_loop h bbox (fixed_elements self).

(** [_reposition_element]: the first valid candidate in the order of the
    offsets, or [None]. *)
Fixpoint reposition_loop (self : t) (h : store) (element : ref)
    (offsets : list (Z * Z)) : option BoundingBox.t :=
  match offsets with
  | [] => None
  | (dx, dy) :: rest =>
      let candidate_bbox :=
        BoundingBox.move (MapElement.bbox (h !!! element)) dx dy in
      if _is_valid_position self h candidate_bbox
           (MapElement.id (h !!! element))
      then Some candidate_bbox
      else reposition_loop self h element rest
  end.

Definition _reposition_element (self : t) (h : store) (element : ref)
    : option BoundingBox.t :=
  reposition_loop self h element MOVEMENT_OFFSETS.

(** The comprehension [[e for e in self.find_overlaps(movable) if not
    e.movable]] of [resolve_clutter]. *)
Definition fixed_overlaps (self : t) (h : store) (movable : ref) : list ref :=
  List.filter (fun e => negb (MapElement.movable (h !!! e)))
              (find_overlaps self h movable).

(** Body of the [for movable in self.movable_elements] loop.  The state is
    the store and the flag [resolved_any].  A non-empty list is truthy; a
    [BoundingBox] defines neither [__bool__] nor [__len__], so [if
    new_bbox] tests for [None]. *)
Definition visit (self : t) (st : store * bool) (movable : ref)
    : store * bool :=
  let '(h, resolved_any) := st in
  match fixed_overlaps self h movable with
  | [] => (h, resolved_any)
  | _ :: _ =>
      match _reposition_element self h movable with
      | Some new_bbox =>
          let h := setattr_bbox h movable new_bbox in
          let h := setattr_moved h movable true in
          (h, true)
      | None => (h, resolved_any)
      end
  end.

(** One iteration of the [while] loop after [resolved_any = False]. *)
Definition scan (self : t) (h : store) : store * bool :=
  fold_left (visit self) (movable_elements self) (h, false).

Definition max_iterations : Z := 10.

(** The [while iteration < max_iterations] loop.  [fuel] bounds the number
    of iterations the model may unfold; [while_loop_fuel] below shows that
    [resolve_clutter] never runs out of it. *)
Fixpoint while_loop (self : t) (fuel : nat) (iteration : Z) (h : store)
    : Z * store :=
  match fuel with
  | O => (iteration, h)
  | S fuel =>
      if iteration <? max_iterations then
        let iteration := iteration + 1 in
        let '(h, resolved_any) := scan self h in
        if negb resolved_any then (iteration, h)
        else while_loop self fuel iteration h
      else (iteration, h)
  end.

Definition resolve_clutter (self : t) (h : store) : Z * store :=
  while_loop self (Z.to_nat max_iterations) 0 h.

(** [get_statistics]: the generator sum, the three lengths and the
    conditional expression. *)
Record statistics : Type := mk_statistics {
  total_elements : Z;
  n_fixed_elements : Z;
  n_movable_elements : Z;
  elements_moved : Z;
  move_percentage : pynum
}.

Definition len {A : Type} (l : list A) : Z := Z.of_nat (length l).

Definition get_statistics (self : t) (h : store) : statistics :=
  let moved_count :=
    fold_left
      (fun acc e => if MapElement.moved (h !!! e) then acc + 1 else acc)
      (movable_elements self) 0 in
  let total_movable := len (movable_elements self) in
  {| total_elements := len (elements self);
     n_fixed_elements := len (fixed_elements self);
     n_movable_elements := total_movable;
     elements_moved := moved_count;
     move_percentage :=
       if 0 <? total_movable
       then PyFloat (mul_int (truediv moved_count total_movable) 100)
       else PyInt 0 |}.

End MapDeclutterEngine.

(** ** class MapVisualizer ([src/visualizer.py])

    The visualizer reads the elements and, while it draws the left panel,
    assigns their [bbox] attribute.  Of matplotlib only the calls to
    [add_patch] are modelled: an axes object is the list of the patches it
    was given, each with the geometry read from the element when it was
    drawn, its edge colour and its kind.  Texts, arrows, titles, the
    legend and the file written by [savefig] are not modelled. *)

Module MapVisualizer.

Definition COLORS : gmap string string :=
  list_to_map [("road", "#2C3E50"); ("river", "#3498DB");
               ("label", "#E74C3C"); ("icon", "#F39C12")]%string.

(** The three kinds of patch [draw_element] adds: a [FancyBboxPatch] filled
    with the colour, a [FancyBboxPatch] filled white, and the dashed
    [Rectangle] of the original position. *)
Inductive kind : Type := Filled | Outlined | Dashed.

Record patch : Type := mk_patch {
  geometry : BoundingBox.t;
  edgecolor : string;
  patch_kind : kind
}.

Record t : Type := mk { elements : list ref }.

(** [element.type in ['road', 'river']]. *)
Definition drawn_fixed (type : string) : bool :=
  existsb (String.eqb type) ["road"; "river"]%string.

(** [draw_element]: the patch of the element at its current [bbox], then,
    when [show_original] is set and the element was moved, the dashed
    rectangle at [original_bbox]. *)
Definition draw_element (h : store) (ax : list patch) (element : ref)
    (show_original : bool) : list patch :=
  let bbox := MapElement.bbox (h !!! element) in
  let color :=
    default "#95A5A6"%string (COLORS !! MapElement.type (h !!! element)) in
  let ax :=
    if drawn_fixed (MapElement.type (h !!! element))
    then ax ++ [mk_patch bbox color Filled]
    else ax ++ [mk_patch bbox color Outlined] in
  if show_original && MapElement.moved (h !!! element)
  then ax ++ [mk_patch (MapElement.original_bbox (h !!! element))
                       "gray"%string Dashed]
  else ax.

(** [_count_overlaps]: for every position [i], the inner loop runs over
    [self.elements[i+1:]]. *)
Fixpoint count_overlaps_loop (h : store) (elements : list ref) (count : Z)
    : Z :=
  match elements with
  | [] => count
  | elem_a :: rest =>
      let count :=
        fold_left
          (fun count elem_b =>
             if BoundingBox.intersects (MapElement.bbox (h !!! elem_a))
                                       (MapElement.bbox (h !!! elem_b))
             then count + 1 else count)
          rest count in
      count_overlaps_loop h rest count
  end.

Definition _count_overlaps (self : t) (h : store) : Z :=
  count_overlaps_loop h (elements self) 0.

(** Body of the first loop of [visualize_comparison]: a moved element is
    put back at [original_bbox] while it is drawn.  The local variable the
    source calls [original_bbox] holds the current box. *)
Definition draw_before (st : store * list patch) (element : ref)
    : store * list patch :=
  let '(h, ax1) := st in
  if MapElement.moved (h !!! element) then
    let original_bbox := MapElement.bbox (h !!! element) in
    let h := setattr_bbox h element
               (MapElement.original_bbox (h !!! element)) in
    let ax1 := draw_element h ax1 element false in
    let h := setattr_bbox h element original_bbox in
    (h, ax1)
  else (h, draw_element h ax1 element false).

Record figure : Type := mk_figure {
  ax1 : list patch;
  overlap_count : Z;
  ax2 : list patch
}.

(** [visualize_comparison]: the left panel, the overlap count written
    under it, the right panel.  [stats] and [save_path] only reach texts
    and the file system. *)
Definition visualize_comparison (self : t) (h : store) : store * figure :=
  let '(h, ax1) := fold_left draw_before (elements self) (h, []) in
  let overlap_count := _count_overlaps self h in
  let ax2 :=
    fold_left (fun ax element => draw_element h ax element true)
              (elements self) [] in
  (h, mk_figure ax1 overlap_count ax2).

End MapVisualizer.

(** ** The demo script ([src/demo.py]) *)

Module Demo.

(** [create_demo_map]: the eight elements, in the order they are appended. *)
Definition create_demo_map : list MapElement.t :=
  [MapElement.init "road_1" "road" (BoundingBox.mk 20 80 160 15);
   MapElement.init "road_2" "road" (BoundingBox.mk 95 20 15 160);
   MapElement.init "river_1" "river" (BoundingBox.mk 130 100 60 12);
   MapElement.init "L1" "label" (BoundingBox.mk 30 83 25 12);
   MapElement.init "L2" "label" (BoundingBox.mk 98 140 25 12);
   MapElement.init "L3" "label" (BoundingBox.mk 135 102 25 10);
   MapElement.init "I1" "icon" (BoundingBox.mk 100 50 12 12);
   MapElement.init "I2" "icon" (BoundingBox.mk 160 103 12 10)].




End Demo.

(** ** Specification-side definitions

    What the statements below are phrased with: the geometric reading of
    [intersects], the relations between two stores, the closed form of one
    visit, and the trace of the iterations of [resolve_clutter]. *)

(** Strict separation along an axis, as the specification words it. *)
Definition separated_x (a b : BoundingBox.t) : Prop :=
  BoundingBox.x a + BoundingBox.width a < BoundingBox.x b
  \/ BoundingBox.x b + BoundingBox.width b < BoundingBox.x a.

Definition separated_y (a b : BoundingBox.t) : Prop :=
  BoundingBox.y a + BoundingBox.height a < BoundingBox.y b
  \/ BoundingBox.y b + BoundingBox.height b < BoundingBox.y a.

(** The closed rectangle a box stands for. *)
Definition covers (a : BoundingBox.t) (px py : Z) : Prop :=
  BoundingBox.x a <= px <= BoundingBox.x a + BoundingBox.width a
  /\ BoundingBox.y a <= py <= BoundingBox.y a + BoundingBox.height a.

(** The priority table of the specification, as a function. *)
Definition table_priority (t : string) : Z :=
  if decide (t = "road"%string) then 10
  else if decide (t = "river"%string) then 10
  else if decide (t = "label"%string) then 1
  else if decide (t = "icon"%string) then 2
  else 0.

(** The attributes of an element that the engine never assigns. *)
Definition same_static (e e' : MapElement.t) : Prop :=
  MapElement.id e' = MapElement.id e
  /\ MapElement.type e' = MapElement.type e
  /\ MapElement.priority e' = MapElement.priority e
  /\ MapElement.movable e' = MapElement.movable e
  /\ MapElement.original_bbox e' = MapElement.original_bbox e.

(** [evolves h h']: [h'] differs from [h] at most in the [bbox] and [moved]
    attributes of elements whose [movable] flag is set. *)
Definition evolves (h h' : store) : Prop :=
  forall r : ref,
    same_static (h !!! r) (h' !!! r)
    /\ (MapElement.movable (h !!! r) = false -> h' !!! r = h !!! r).

(** The box that visiting [m] in store [h] commits, if any. *)
Definition target (self : MapDeclutterEngine.t) (h : store) (m : ref)
    : option BoundingBox.t :=
  match MapDeclutterEngine.fixed_overlaps self h m with
  | [] => None
  | _ :: _ => MapDeclutterEngine._reposition_element self h m
  end.

(** The record of [m] after it has been visited in store [h]. *)
Definition settle (self : MapDeclutterEngine.t) (h : store) (m : ref)
    : MapElement.t :=
  match target self h m with
  | Some new_bbox =>
      MapElement.set_moved true (MapElement.set_bbox new_bbox (h !!! m))
  | None => h !!! m
  end.

(** The store after [k] unbroken iterations of the [while] loop, and the
    number of repositionings that iteration [k] (counted from 1) commits
    when it runs. *)
Fixpoint store_after (self : MapDeclutterEngine.t) (k : nat) (h : store)
    : store :=
  match k with
  | O => h
  | S k => store_after self k (MapDeclutterEngine.scan self h).1
  end.

Definition count_visit (self : MapDeclutterEngine.t) (st : store * nat)
    (m : ref) : store * nat :=
  let '(h', committed) := MapDeclutterEngine.visit self (st.1, false) m in
  (h', if committed then S st.2 else st.2).

Definition repositionings (self : MapDeclutterEngine.t) (k : nat) (h : store)
    : nat :=
  (fold_left (count_visit self) (MapDeclutterEngine.movable_elements self)
             (store_after self (k - 1) h, 0%nat)).2.

(** [resolve_clutter] called [k] times in a row on the same engine. *)
Fixpoint resolve_times (self : MapDeclutterEngine.t) (k : nat) (h : store)
    : store :=
  match k with
  | O => h
  | S k => resolve_times self k (MapDeclutterEngine.resolve_clutter self h).2
  end.


(** Allocation of a list of freshly built elements at references 0, 1, ... *)
Definition alloc (es : list MapElement.t) : store :=
  list_to_map (zip (seq 0 (length es)) es).



(** ** Scenes used as concrete inputs *)

Definition road_box : BoundingBox.t := BoundingBox.mk 20 80 160 15.
Definition label_box : BoundingBox.t := BoundingBox.mk 30 83 25 12.

(** The road and the label of the demo scene, at references 0 and 1. *)
Definition scene_label_road : store :=
  alloc [MapElement.init "road_1" "road" road_box;
         MapElement.init "label_1" "label" label_box].


(** A road and three labels, one of which overlaps the road. *)
Definition scene_three_labels : store :=
  alloc [MapElement.init "road_1" "road" road_box;
         MapElement.init "label_1" "label" label_box;
         MapElement.init "label_2" "label" (BoundingBox.mk 30 200 25 12);
         MapElement.init "label_3" "label" (BoundingBox.mk 30 300 25 12)].


(** The demo map, allocated at references 0 to 7. *)
Definition demo_store : store := alloc Demo.create_demo_map.
Definition demo_refs : list ref := seq 0 8.

(** [fresh h els]: no listed element has been moved yet; each stands at
    the box it was built with, its [moved] flag down. *)
Definition fresh (h : store) (els : list ref) : Prop :=
  forall r : ref,
    In r els ->
    MapElement.moved (h !!! r) = false
    /\ MapElement.bbox (h !!! r) = MapElement.original_bbox (h !!! r).

(** ** Properties of [BoundingBox] *)

Lemma intersects_true_iff (a b : BoundingBox.t) :
  BoundingBox.intersects a b = true
  <-> BoundingBox.x b <= BoundingBox.x a + BoundingBox.width a
      /\ BoundingBox.x a <= BoundingBox.x b + BoundingBox.width b
      /\ BoundingBox.y b <= BoundingBox.y a + BoundingBox.height a
      /\ BoundingBox.y a <= BoundingBox.y b + BoundingBox.height b.
Proof.
  unfold BoundingBox.intersects.
  rewrite negb_true_iff, !orb_false_iff, !Z.ltb_ge. tauto.
Qed.

(** X1. [intersects] is symmetric. *)
Theorem intersects_comm (a b : BoundingBox.t) :
  BoundingBox.intersects a b = BoundingBox.intersects b a.
Proof.
  apply eq_true_iff_eq. rewrite !intersects_true_iff. tauto.
Qed.

(** X2. A box with non-negative width and height intersects itself. *)
Theorem intersects_self (a : BoundingBox.t) :
  0 <= BoundingBox.width a -> 0 <= BoundingBox.height a ->
  BoundingBox.intersects a a = true.
Proof. intros Hw Hh. apply intersects_true_iff. lia. Qed.

Lemma intersects_self_witness :
  BoundingBox.intersects (BoundingBox.mk 30 83 25 12)
                         (BoundingBox.mk 30 83 25 12) = true.
Proof.
  apply (intersects_self (BoundingBox.mk 30 83 25 12)); simpl; lia.
Defined.

(** C3. For boxes with non-negative width and height, [intersects] is true
    exactly when the boxes are strictly separated along neither axis; two
    boxes that share an edge (the right edge of one is the left edge of the
    other, or the bottom edge of one is the top edge of the other, with
    overlapping extent on the other axis) intersect; and [intersects] is
    true exactly when the two closed rectangles have a common point. *)
Theorem intersects_iff_not_separated (a b : BoundingBox.t) :
  0 <= BoundingBox.width a -> 0 <= BoundingBox.height a ->
  0 <= BoundingBox.width b -> 0 <= BoundingBox.height b ->
  (BoundingBox.intersects a b = true
     <-> ~ (separated_x a b \/ separated_y a b))
  /\ (BoundingBox.x a + BoundingBox.width a = BoundingBox.x b ->
      ~ separated_y a b -> BoundingBox.intersects a b = true)
  /\ (BoundingBox.y a + BoundingBox.height a = BoundingBox.y b ->
      ~ separated_x a b -> BoundingBox.intersects a b = true)
  /\ (BoundingBox.intersects a b = true
     <-> exists px py, covers a px py /\ covers b px py).
Proof.
  intros Hwa Hha Hwb Hhb.
  rewrite !intersects_true_iff. unfold separated_x, separated_y, covers.
  repeat split; try lia.
  - intros (H1 & H2 & H3 & H4).
    exists (Z.max (BoundingBox.x a) (BoundingBox.x b)),
           (Z.max (BoundingBox.y a) (BoundingBox.y b)). lia.
  - destruct H as (px & py & Ha & Hb). lia.
  - destruct H as (px & py & Ha & Hb). lia.
  - destruct H as (px & py & Ha & Hb). lia.
  - destruct H as (px & py & Ha & Hb). lia.
Qed.

Lemma intersects_iff_not_separated_witness :
  let a := BoundingBox.mk 0 0 10 10 in
  let b := BoundingBox.mk 10 0 5 5 in
  (0 <= BoundingBox.width a /\ 0 <= BoundingBox.height a
   /\ 0 <= BoundingBox.width b /\ 0 <= BoundingBox.height b)
  /\ BoundingBox.x a + BoundingBox.width a = BoundingBox.x b
  /\ BoundingBox.intersects a b = true.
Proof.
  split; [simpl; lia | split; [reflexivity |]].
  apply (proj1 (proj2 (intersects_iff_not_separated
                         (BoundingBox.mk 0 0 10 10) (BoundingBox.mk 10 0 5 5)
                         ltac:(simpl; lia) ltac:(simpl; lia)
                         ltac:(simpl; lia) ltac:(simpl; lia)))).
  - reflexivity.
  - unfold separated_y; simpl; lia.
Defined.

(** ** Properties of [MapElement] *)

Lemma PRIORITY_lookup (t : string) :
  default 0 (MapElement.PRIORITY !! t) = table_priority t.
Proof.
  unfold MapElement.PRIORITY, table_priority. simpl.
  repeat case_decide; subst; simplify_map_eq; reflexivity.
Qed.

(** C6. An element built with type [t] has priority 10 for road and river,
    1 for label, 2 for icon and 0 for every other string, and its movable
    flag is the test [priority < 5]: false for road and river, true for
    every other type. *)
Theorem init_priority_movable (i t : string) (b : BoundingBox.t) :
  let e := MapElement.init i t b in
  MapElement.priority e
  = (if decide (t = "road"%string \/ t = "river"%string) then 10
     else if decide (t = "label"%string) then 1
     else if decide (t = "icon"%string) then 2
     else 0)
  /\ MapElement.movable e = (MapElement.priority e <? 5)
  /\ MapElement.movable e
     = negb (bool_decide (t = "road"%string \/ t = "river"%string)).
Proof.
  cbv zeta. unfold MapElement.init. cbn [MapElement.priority MapElement.movable].
  rewrite PRIORITY_lookup. unfold table_priority.
  repeat case_decide; subst;
    repeat match goal with
           | |- context [bool_decide ?P] =>
               first [ rewrite (bool_decide_eq_true_2 P) by tauto
                     | rewrite (bool_decide_eq_false_2 P) by tauto ]
           end;
    try tauto; repeat split; reflexivity.
Qed.

(** ** Construction of the engine *)

Lemma filter_sublist {A : Type} (p : A -> bool) (l : list A) :
  sublist (List.filter p l) l.
Proof.
  induction l as [|a l IH]; simpl.
  - constructor.
  - destruct (p a); [by apply sublist_skip | by apply sublist_cons].
Qed.

Lemma filter_split_perm {A : Type} (p : A -> bool) (l : list A) :
  Permutation l (List.filter (fun a => negb (p a)) l ++ List.filter p l).
Proof.
  induction l as [|a l IH]; simpl; [constructor|].
  destruct (p a); simpl.
  - rewrite IH at 1. apply Permutation_middle.
  - by constructor.
Qed.

(** C9. The constructor splits the input sequence in two: [fixed_elements]
    holds exactly the entries whose movable flag is false and
    [movable_elements] exactly those whose flag is true; both are
    subsequences of the input (relative order kept), no reference is in
    both, and together they are a rearrangement of the input, so that
    every entry of the input is in exactly one of them, as often as it
    is listed in the input. *)
Theorem init_partition (h : store) (els : list ref) :
  let eng := MapDeclutterEngine.init h els in
  MapDeclutterEngine.elements eng = els
  /\ sublist (MapDeclutterEngine.fixed_elements eng) els
  /\ sublist (MapDeclutterEngine.movable_elements eng) els
  /\ (forall r : ref,
        In r (MapDeclutterEngine.fixed_elements eng)
        <-> In r els /\ MapElement.movable (h !!! r) = false)
  /\ (forall r : ref,
        In r (MapDeclutterEngine.movable_elements eng)
        <-> In r els /\ MapElement.movable (h !!! r) = true)
  /\ (forall r : ref,
        ~ (In r (MapDeclutterEngine.fixed_elements eng)
           /\ In r (MapDeclutterEngine.movable_elements eng)))
  /\ Permutation els (MapDeclutterEngine.fixed_elements eng
                      ++ MapDeclutterEngine.movable_elements eng)
  /\ (forall r : ref,
        count_occ Nat.eq_dec els r
        = (count_occ Nat.eq_dec (MapDeclutterEngine.fixed_elements eng) r
           + count_occ Nat.eq_dec (MapDeclutterEngine.movable_elements eng) r)%nat)
  /\ (length (MapDeclutterEngine.fixed_elements eng)
      + length (MapDeclutterEngine.movable_elements eng) = length els)%nat.
Proof.
  cbv zeta. unfold MapDeclutterEngine.init; cbn.
  assert (HP := filter_split_perm (fun e => MapElement.movable (h !!! e)) els).
  split_and!.
  - reflexivity.
  - apply filter_sublist.
  - apply filter_sublist.
  - intros r. rewrite filter_In, negb_true_iff. tauto.
  - intros r. rewrite filter_In. tauto.
  - intros r [[_ H1]%filter_In [_ H2]%filter_In].
    rewrite H2 in H1. discriminate.
  - exact HP.
  - intros r. rewrite <- count_occ_app.
    revert r. by apply (Permutation_count_occ Nat.eq_dec).
  - rewrite <- length_app. symmetry. by apply Permutation_length.
Qed.

(** ** The store under attribute assignment *)

Lemma commit_lookup (h : store) (m r : ref) (nb : BoundingBox.t) :
  setattr_moved (setattr_bbox h m nb) m true !!! r
  = if decide (m = r)
    then MapElement.set_moved true (MapElement.set_bbox nb (h !!! m))
    else h !!! r.
Proof.
  unfold setattr_moved, setattr_bbox.
  rewrite !lookup_total_insert. repeat case_decide; done.
Qed.

Lemma same_static_refl (e : MapElement.t) : same_static e e.
Proof. by repeat split. Qed.

Lemma same_static_trans (e1 e2 e3 : MapElement.t) :
  same_static e1 e2 -> same_static e2 e3 -> same_static e1 e3.
Proof.
  unfold same_static. intros (?&?&?&?&?) (?&?&?&?&?).
  split_and!; congruence.
Qed.

Lemma same_static_commit (e : MapElement.t) (nb : BoundingBox.t) :
  same_static e (MapElement.set_moved true (MapElement.set_bbox nb e)).
Proof. by repeat split. Qed.

Lemma evolves_refl (h : store) : evolves h h.
Proof. intros r. split; [apply same_static_refl | done]. Qed.

Lemma evolves_trans (h1 h2 h3 : store) :
  evolves h1 h2 -> evolves h2 h3 -> evolves h1 h3.
Proof.
  intros H12 H23 r. destruct (H12 r) as [S12 F12], (H23 r) as [S23 F23].
  split; [by eapply same_static_trans|].
  intros Hf. rewrite F23, F12; try done.
  rewrite F12; done.
Qed.

Lemma evolves_movable (h h' : store) (r : ref) :
  evolves h h' ->
  MapElement.movable (h' !!! r) = MapElement.movable (h !!! r).
Proof. intros H. by destruct (H r) as [(_&_&_&?&_) _]. Qed.

Lemma evolves_id (h h' : store) (r : ref) :
  evolves h h' -> MapElement.id (h' !!! r) = MapElement.id (h !!! r).
Proof. intros H. by destruct (H r) as [(?&_) _]. Qed.

Lemma evolves_fixed (h h' : store) (r : ref) :
  evolves h h' -> MapElement.movable (h !!! r) = false -> h' !!! r = h !!! r.
Proof. intros H. by destruct (H r) as [_ ?]. Qed.

(** ** The loops of the engine as list functions *)

Lemma filter_filter_andb {A : Type} (p q : A -> bool) (l : list A) :
  List.filter q (List.filter p l) = List.filter (fun a => p a && q a) l.
Proof.
  induction l as [|a l IH]; simpl; [done|].
  destruct (p a); simpl; [destruct (q a)|]; by rewrite IH.
Qed.

Lemma filter_nil_iff {A : Type} (p : A -> bool) (l : list A) :
  List.filter p l = [] <-> forall a, In a l -> p a = false.
Proof.
  induction l as [|a l IH]; simpl; [tauto|].
  destruct (p a) eqn:E.
  - split; [done|]. intros H. specialize (H a (or_introl eq_refl)). congruence.
  - rewrite IH. split.
    + intros H b [<-|Hb]; auto.
    + intros H b Hb. auto.
Qed.

Lemma fold_append_filter {A : Type} (p : A -> bool) (l acc : list A) :
  fold_left (fun out a => if p a then out ++ [a] else out) l acc
  = acc ++ List.filter p l.
Proof.
  revert acc. induction l as [|a l IH]; intros acc; simpl.
  - by rewrite app_nil_r.
  - rewrite IH. destruct (p a); [by rewrite <- app_assoc | done].
Qed.

Lemma find_overlaps_filter (self : MapDeclutterEngine.t) (h : store)
    (element : ref) :
  MapDeclutterEngine.find_overlaps self h element
  = List.filter
      (fun other =>
         negb (String.eqb (MapElement.id (h !!! other))
                          (MapElement.id (h !!! element)))
         && MapDeclutterEngine.detect_overlap h element other)
      (MapDeclutterEngine.elements self).
Proof.
  unfold MapDeclutterEngine.find_overlaps.
  by rewrite (fold_append_filter
                (fun other =>
                   negb (String.eqb (MapElement.id (h !!! other))
                                    (MapElement.id (h !!! element)))
                   && MapDeclutterEngine.detect_overlap h element other)).
Qed.

Lemma fixed_overlaps_filter (self : MapDeclutterEngine.t) (h : store)
    (m : ref) :
  MapDeclutterEngine.fixed_overlaps self h m
  = List.filter
      (fun o =>
         (negb (String.eqb (MapElement.id (h !!! o)) (MapElement.id (h !!! m)))
          && MapDeclutterEngine.detect_overlap h m o)
         && negb (MapElement.movable (h !!! o)))
      (MapDeclutterEngine.elements self).
Proof.
  unfold MapDeclutterEngine.fixed_overlaps.
  by rewrite find_overlaps_filter, filter_filter_andb.
Qed.

Lemma fixed_overlaps_In (self : MapDeclutterEngine.t) (h : store) (m o : ref) :
  In o (MapDeclutterEngine.fixed_overlaps self h m)
  <-> In o (MapDeclutterEngine.elements self)
      /\ MapElement.id (h !!! o) <> MapElement.id (h !!! m)
      /\ BoundingBox.intersects (MapElement.bbox (h !!! m))
                                (MapElement.bbox (h !!! o)) = true
      /\ MapElement.movable (h !!! o) = false.
Proof.
  rewrite fixed_overlaps_filter, filter_In, !andb_true_iff, !negb_true_iff.
  unfold MapDeclutterEngine.detect_overlap.
  rewrite String.eqb_neq. tauto.
Qed.

Lemma is_valid_position_loop_true (h : store) (b : BoundingBox.t)
    (fx : list ref) :
  MapDeclutterEngine.is_valid_position_loop h b fx = true
  <-> forall f, In f fx ->
        BoundingBox.intersects b (MapElement.bbox (h !!! f)) = false.
Proof.
  induction fx as [|f fx IH]; simpl; [tauto|].
  destruct (BoundingBox.intersects b _) eqn:E.
  - split; [done|]. intros H. specialize (H f (or_introl eq_refl)). congruence.
  - rewrite IH. split.
    + intros H g [<-|Hg]; auto.
    + intros H g Hg. auto.
Qed.

Lemma is_valid_position_loop_ext (h h' : store) (b : BoundingBox.t)
    (fx : list ref) :
  (forall f, In f fx -> h' !!! f = h !!! f) ->
  MapDeclutterEngine.is_valid_position_loop h' b fx
  = MapDeclutterEngine.is_valid_position_loop h b fx.
Proof.
  induction fx as [|f fx IH]; simpl; intros H; [done|].
  rewrite (H f) by auto. rewrite IH by auto. done.
Qed.

Lemma reposition_loop_Some (self : MapDeclutterEngine.t) (h : store)
    (m : ref) (offsets : list (Z * Z)) (nb : BoundingBox.t) :
  MapDeclutterEngine.reposition_loop self h m offsets = Some nb ->
  MapDeclutterEngine._is_valid_position self h nb (MapElement.id (h !!! m))
  = true
  /\ exists dx dy, In (dx, dy) offsets
       /\ nb = BoundingBox.move (MapElement.bbox (h !!! m)) dx dy.
Proof.
  induction offsets as [|[dx dy] offsets IH]; simpl; [done|].
  destruct (MapDeclutterEngine._is_valid_position self h
              (BoundingBox.move (MapElement.bbox (h !!! m)) dx dy)
              (MapElement.id (h !!! m))) eqn:E.
  - intros [= <-]. split; [exact E|]. exists dx, dy. auto.
  - intros H. destruct (IH H) as (Hv & dx' & dy' & Hin & ->).
    split; [exact Hv|]. exists dx', dy'. auto.
Qed.


Lemma visit_target (self : MapDeclutterEngine.t) (h : store) (b : bool)
    (m : ref) :
  MapDeclutterEngine.visit self (h, b) m
  = match target self h m with
    | Some nb => (setattr_moved (setattr_bbox h m nb) m true, true)
    | None => (h, b)
    end.
Proof.
  unfold MapDeclutterEngine.visit, target.
  destruct (MapDeclutterEngine.fixed_overlaps self h m); [done|].
  by destruct (MapDeclutterEngine._reposition_element self h m).
Qed.

Lemma scan_idle (self : MapDeclutterEngine.t) (ms : list ref) (h : store)
    (b : bool) :
  (forall m, In m ms -> target self h m = None) ->
  fold_left (MapDeclutterEngine.visit self) ms (h, b) = (h, b).
Proof.
  induction ms as [|m ms IH]; cbn [fold_left]; intros H; [done|].
  rewrite visit_target, (H m) by (by left). apply IH.
  intros r Hr. apply H. by right.
Qed.

(** ** One engine, built in [h0] from [els], and the stores it reaches *)

Section Resolution.

Context (h0 : store) (els : list ref).

Local Abbreviation eng := (MapDeclutterEngine.init h0 els).

Lemma movable_elements_In (m : ref) :
  In m (MapDeclutterEngine.movable_elements eng)
  <-> In m els /\ MapElement.movable (h0 !!! m) = true.
Proof. cbn. by rewrite filter_In. Qed.

Lemma fixed_elements_In (f : ref) :
  In f (MapDeclutterEngine.fixed_elements eng)
  <-> In f els /\ MapElement.movable (h0 !!! f) = false.
Proof. cbn. by rewrite filter_In, negb_true_iff. Qed.

(** Validity of a box only reads the fixed elements, which no reachable
    store changes. *)
Lemma valid_position_stable (h : store) (b : BoundingBox.t) (i i' : string) :
  evolves h0 h ->
  MapDeclutterEngine._is_valid_position eng h b i
  = MapDeclutterEngine._is_valid_position eng h0 b i'.
Proof.
  intros He. unfold MapDeclutterEngine._is_valid_position.
  apply is_valid_position_loop_ext.
  intros f [_ Hf]%fixed_elements_In. by apply evolves_fixed.
Qed.

Lemma reposition_stable (h h' : store) (m : ref) (offsets : list (Z * Z)) :
  evolves h0 h -> evolves h0 h' ->
  MapElement.bbox (h !!! m) = MapElement.bbox (h' !!! m) ->
  MapDeclutterEngine.reposition_loop eng h m offsets
  = MapDeclutterEngine.reposition_loop eng h' m offsets.
Proof.
  intros He He' Hb.
  induction offsets as [|[dx dy] offsets IH]; simpl; [done|].
  rewrite Hb, IH.
  rewrite (valid_position_stable h _ _ EmptyString He).
  by rewrite (valid_position_stable h' _ _ EmptyString He').
Qed.

Lemma fixed_overlaps_stable (h h' : store) (m : ref) :
  evolves h0 h -> evolves h0 h' ->
  MapElement.bbox (h !!! m) = MapElement.bbox (h' !!! m) ->
  MapDeclutterEngine.fixed_overlaps eng h m
  = MapDeclutterEngine.fixed_overlaps eng h' m.
Proof.
  intros He He' Hb. rewrite !fixed_overlaps_filter.
  apply filter_ext. intros o.
  rewrite (evolves_movable h0 h o He), (evolves_movable h0 h' o He').
  destruct (MapElement.movable (h0 !!! o)) eqn:Hm.
  - by rewrite !andb_false_r.
  - unfold MapDeclutterEngine.detect_overlap.
    rewrite (evolves_fixed h0 h o He Hm), (evolves_fixed h0 h' o He' Hm).
    rewrite (evolves_id h0 h m He), (evolves_id h0 h' m He'). by rewrite Hb.
Qed.

Lemma target_stable (h h' : store) (m : ref) :
  evolves h0 h -> evolves h0 h' ->
  MapElement.bbox (h !!! m) = MapElement.bbox (h' !!! m) ->
  target eng h m = target eng h' m.
Proof.
  intros He He' Hb. unfold target, MapDeclutterEngine._reposition_element.
  by rewrite (fixed_overlaps_stable h h' m), (reposition_stable h h' m).
Qed.

(** A box that is valid overlaps no fixed element, whatever the ids. *)
Lemma valid_no_fixed_overlap (h : store) (m : ref) (i : string) :
  evolves h0 h ->
  MapDeclutterEngine._is_valid_position eng h (MapElement.bbox (h !!! m)) i
  = true ->
  MapDeclutterEngine.fixed_overlaps eng h m = [].
Proof.
  intros He Hv.
  destruct (MapDeclutterEngine.fixed_overlaps eng h m) as [|o l] eqn:E; [done|].
  assert (Ho : In o (MapDeclutterEngine.fixed_overlaps eng h m))
    by (rewrite E; left; done).
  apply fixed_overlaps_In in Ho as (Hin & _ & Hint & Hmov).
  rewrite (evolves_movable h0 h o He) in Hmov.
  unfold MapDeclutterEngine._is_valid_position in Hv.
  rewrite is_valid_position_loop_true in Hv.
  rewrite (Hv o) in Hint; [done|]. by apply fixed_elements_In.
Qed.

Lemma target_Some_valid (h : store) (m : ref) (nb : BoundingBox.t) :
  target eng h m = Some nb ->
  MapDeclutterEngine._is_valid_position eng h nb (MapElement.id (h !!! m))
  = true.
Proof.
  unfold target. destruct (MapDeclutterEngine.fixed_overlaps eng h m); [done|].
  intros H. by apply reposition_loop_Some in H as [? _].
Qed.

(** Visiting an element that was just visited changes nothing. *)
Lemma settle_idempotent (h h1 : store) (m : ref) :
  evolves h0 h -> evolves h0 h1 ->
  h1 !!! m = settle eng h m ->
  target eng h1 m = None.
Proof.
  intros He He1 H1. unfold settle in H1.
  destruct (target eng h m) as [nb|] eqn:T.
  - apply target_Some_valid in T.
    rewrite (valid_position_stable h nb _ EmptyString He) in T.
    rewrite <- (valid_position_stable h1 nb EmptyString EmptyString He1) in T.
    assert (Hb : MapElement.bbox (h1 !!! m) = nb) by (by rewrite H1).
    rewrite <- Hb in T. apply (valid_no_fixed_overlap h1 m) in T; [|done].
    unfold target. by rewrite T.
  - rewrite <- T. apply target_stable; [done..|]. by rewrite H1.
Qed.

Lemma visit_spec (h : store) (b : bool) (m : ref) :
  evolves h0 h -> MapElement.movable (h0 !!! m) = true ->
  let st := MapDeclutterEngine.visit eng (h, b) m in
  evolves h0 st.1
  /\ st.1 !!! m = settle eng h m
  /\ (forall r, r <> m -> st.1 !!! r = h !!! r)
  /\ (st.2 = true <-> b = true \/ target eng h m <> None).
Proof.
  intros He Hm. cbv zeta. rewrite visit_target. unfold settle.
  destruct (target eng h m) as [nb|] eqn:T; simpl.
  - split_and!.
    + intros r. rewrite commit_lookup. case_decide as Hr.
      * subst r. split; [|congruence].
        eapply same_static_trans; [apply (He m) | apply same_static_commit].
      * apply He.
    + rewrite commit_lookup. by rewrite decide_True.
    + intros r Hr. rewrite commit_lookup. by rewrite decide_False.
    + split; [right; done | done].
  - split_and!; try done. split; [by left | by intros [?|?]].
Qed.

Lemma scan_fold (ms : list ref) :
  Forall (fun m => MapElement.movable (h0 !!! m) = true) ms ->
  forall (h : store) (b : bool),
    evolves h0 h ->
    let st := fold_left (MapDeclutterEngine.visit eng) ms (h, b) in
    evolves h0 st.1
    /\ (forall m, In m ms -> st.1 !!! m = settle eng h m)
    /\ (forall r, ~ In r ms -> st.1 !!! r = h !!! r)
    /\ (st.2 = true <-> b = true \/ exists m, In m ms /\ target eng h m <> None).
Proof.
  induction 1 as [|m ms Hm Hms IH]; intros h b He; cbv zeta.
  - simpl. split_and!; try done. split; [by left | by intros [?|(?&[]&?)]].
  - cbn [fold_left].
    destruct (visit_spec h b m He Hm) as (He1 & Hm1 & Hr1 & Hb1).
    destruct (MapDeclutterEngine.visit eng (h, b) m) as [h1 b1] eqn:V.
    cbn [fst snd] in He1, Hm1, Hr1, Hb1.
    destruct (IH h1 b1 He1) as (He2 & Hin2 & Hout2 & Hb2).
    assert (Hidem : target eng h1 m = None)
      by (by apply (settle_idempotent h h1 m)).
    assert (Hsame : forall r, r <> m -> target eng h1 r = target eng h r).
    { intros r Hr. apply target_stable; [done..|]. by rewrite Hr1. }
    split_and!.
    + exact He2.
    + intros r [<-|Hr].
      * destruct (in_dec Nat.eq_dec m ms) as [Hi|Hi].
        -- rewrite (Hin2 m Hi). unfold settle at 1. by rewrite Hidem.
        -- by rewrite (Hout2 m Hi).
      * rewrite (Hin2 r Hr). destruct (decide (r = m)) as [->|Hne].
        -- unfold settle at 1. by rewrite Hidem.
        -- unfold settle. by rewrite (Hsame r Hne), (Hr1 r Hne).
    + intros r Hr. rewrite Hout2 by (intros ?; apply Hr; by right).
      apply Hr1. intros ->. apply Hr. by left.
    + rewrite Hb2, Hb1. split.
      * intros [[?|?]|(r & Hr & Ht)]; [by left | right; exists m; split; [by left|done] |].
        right. exists r. split; [by right|].
        destruct (decide (r = m)) as [->|Hne]; [congruence|].
        by rewrite <- (Hsame r Hne).
      * intros [?|(r & [<-|Hr] & Ht)]; [by left; left | by left; right |].
        destruct (decide (r = m)) as [->|Hne]; [by left; right|].
        right. exists r. split; [done|]. by rewrite (Hsame r Hne).
Qed.

Lemma movable_elements_Forall :
  Forall (fun m => MapElement.movable (h0 !!! m) = true)
         (MapDeclutterEngine.movable_elements eng).
Proof. apply List.Forall_forall. by intros m [_ ?]%movable_elements_In. Qed.

(** One iteration, in closed form. *)
Lemma scan_spec (h : store) :
  evolves h0 h ->
  let st := MapDeclutterEngine.scan eng h in
  evolves h0 st.1
  /\ (forall m, In m (MapDeclutterEngine.movable_elements eng) ->
        st.1 !!! m = settle eng h m)
  /\ (forall r, ~ In r (MapDeclutterEngine.movable_elements eng) ->
        st.1 !!! r = h !!! r)
  /\ (st.2 = true
      <-> exists m, In m (MapDeclutterEngine.movable_elements eng)
                    /\ target eng h m <> None).
Proof.
  intros He. cbv zeta. unfold MapDeclutterEngine.scan.
  destruct (scan_fold _ movable_elements_Forall h false He)
    as (H1 & H2 & H3 & H4).
  split_and!; [done..|]. rewrite H4. split; [by intros [?|?] | by right].
Qed.

(** The iteration that follows any iteration commits nothing. *)
Lemma scan_again (h : store) :
  evolves h0 h ->
  MapDeclutterEngine.scan eng (MapDeclutterEngine.scan eng h).1
  = ((MapDeclutterEngine.scan eng h).1, false).
Proof.
  intros He. destruct (scan_spec h He) as (H1 & H2 & _).
  unfold MapDeclutterEngine.scan at 1. apply scan_idle.
  intros m Hm. apply (settle_idempotent h); [done..|]. by apply H2.
Qed.

(** An iteration that leaves the flag down leaves the store as it was. *)
Lemma scan_unproductive (h : store) :
  evolves h0 h ->
  (MapDeclutterEngine.scan eng h).2 = false ->
  MapDeclutterEngine.scan eng h = (h, false).
Proof.
  intros He Hf. destruct (scan_spec h He) as (_ & _ & _ & H4).
  unfold MapDeclutterEngine.scan. apply scan_idle. intros m Hm.
  destruct (target eng h m) eqn:T; [|done].
  rewrite Hf in H4. assert (false = true); [|done].
  apply H4. exists m. split; [done|]. by rewrite T.
Qed.

(** [resolve_clutter] in closed form: the first iteration decides the
    store, and the second one, when it runs, commits nothing. *)
Lemma resolve_clutter_closed (h : store) :
  evolves h0 h ->
  MapDeclutterEngine.resolve_clutter eng h
  = (if (MapDeclutterEngine.scan eng h).2 then 2 else 1,
     (MapDeclutterEngine.scan eng h).1).
Proof.
  intros He. unfold MapDeclutterEngine.resolve_clutter.
  change (Z.to_nat MapDeclutterEngine.max_iterations) with (S (S 8)).
  cbn [MapDeclutterEngine.while_loop].
  change (0 <? MapDeclutterEngine.max_iterations) with true.
  change (0 + 1 <? MapDeclutterEngine.max_iterations) with true.
  cbv iota.
  assert (Hagain := scan_again h He).
  destruct (MapDeclutterEngine.scan eng h) as [h1 f]. cbn [fst snd] in *.
  destruct f; cbn [negb]; [|done].
  by rewrite Hagain.
Qed.

End Resolution.

(** ** The [while] loop *)

(** More fuel than the iterations left under the cap changes nothing: the
    guard [iteration < max_iterations] stops the loop, never the fuel. *)
Lemma while_loop_fuel (self : MapDeclutterEngine.t) (extra fuel : nat) :
  forall (iteration : Z) (h : store),
    (Z.to_nat (MapDeclutterEngine.max_iterations - iteration) <= fuel)%nat ->
    MapDeclutterEngine.while_loop self (fuel + extra) iteration h
    = MapDeclutterEngine.while_loop self fuel iteration h.
Proof.
  unfold MapDeclutterEngine.max_iterations.
  induction fuel as [|fuel IH]; intros iteration h Hle.
  - assert (Hge : (iteration <? MapDeclutterEngine.max_iterations) = false)
      by (apply Z.ltb_ge; unfold MapDeclutterEngine.max_iterations; lia).
    destruct extra; simpl; [done|]. by rewrite Hge.
  - cbn [Nat.add MapDeclutterEngine.while_loop].
    destruct (iteration <? MapDeclutterEngine.max_iterations) eqn:Hlt; [|done].
    destruct (MapDeclutterEngine.scan self h) as [h1 f].
    destruct (negb f); [done|]. apply IH. lia.
Qed.

Lemma count_visit_target (self : MapDeclutterEngine.t) (h : store) (n : nat)
    (m : ref) :
  count_visit self (h, n) m
  = match target self h m with
    | Some nb => (setattr_moved (setattr_bbox h m nb) m true, S n)
    | None => (h, n)
    end.
Proof.
  unfold count_visit. cbn [fst snd]. rewrite visit_target.
  by destruct (target self h m).
Qed.

(** The counter of repositionings and the flag [resolved_any] agree. *)
Lemma count_fold (self : MapDeclutterEngine.t) (ms : list ref) :
  forall (h : store) (b : bool) (n : nat),
    let sv := fold_left (MapDeclutterEngine.visit self) ms (h, b) in
    let sc := fold_left (count_visit self) ms (h, n) in
    sc.1 = sv.1
    /\ (n <= sc.2)%nat
    /\ (sv.2 = true <-> b = true \/ (n < sc.2)%nat).
Proof.
  induction ms as [|m ms IH]; intros h b n; cbv zeta.
  - simpl. split_and!; [done | lia |].
    split; [by left | intros [?|?]; [done|lia]].
  - cbn [fold_left]. rewrite visit_target, count_visit_target.
    destruct (target self h m) as [nb|].
    + destruct (IH (setattr_moved (setattr_bbox h m nb) m true) true (S n))
        as (H1 & H2 & H3).
      split_and!; [done | lia |]. rewrite H3.
      split; [intros _; right; lia | intros _; by left].
    + destruct (IH h b n) as (H1 & H2 & H3). by split_and!.
Qed.

Lemma repositionings_zero (self : MapDeclutterEngine.t) (k : nat) (h : store) :
  repositionings self k h = 0%nat
  <-> (MapDeclutterEngine.scan self (store_after self (k - 1) h)).2 = false.
Proof.
  unfold repositionings, MapDeclutterEngine.scan.
  destruct (count_fold self (MapDeclutterEngine.movable_elements self)
              (store_after self (k - 1) h) false 0%nat) as (_ & _ & H).
  destruct (fold_left (MapDeclutterEngine.visit self) _ _) as [h1 f].
  cbn [snd] in *. destruct f.
  - split; [|done]. intros H0. destruct (proj1 H eq_refl); [done|lia].
  - split; [done|]. intros _.
    destruct (fold_left (count_visit self) _ _) as [h2 [|c]]; [done|].
    cbn [snd] in H. assert (false = true); [|done]. apply H. right. lia.
Qed.

(** ** Theorems about [resolve_clutter] *)

Lemma resolve_clutter_evolves (h0 : store) (els : list ref) (h : store) :
  evolves h0 h ->
  evolves h0
    (MapDeclutterEngine.resolve_clutter (MapDeclutterEngine.init h0 els) h).2.
Proof.
  intros He. rewrite resolve_clutter_closed by done. cbn [snd].
  by destruct (scan_spec h0 els h He) as [? _].
Qed.

Lemma resolve_times_evolves (h0 : store) (els : list ref) (k : nat) :
  forall h : store,
    evolves h0 h ->
    evolves h0 (resolve_times (MapDeclutterEngine.init h0 els) k h).
Proof.
  induction k as [|k IH]; intros h He; cbn [resolve_times]; [done|].
  apply IH. by apply resolve_clutter_evolves.
Qed.

(** C5. [resolve_clutter] returns 1 or 2, so the cap of 10 is never
    reached.  An element that the call repositions holds the box the
    engine chose and overlaps no fixed element afterwards; an element
    whose attempt failed is unchanged and its attempt fails again; and one
    more iteration from the returned store commits nothing. *)
Theorem resolve_clutter_at_most_two (h0 : store) (els : list ref) :
  let eng := MapDeclutterEngine.init h0 els in
  let r := MapDeclutterEngine.resolve_clutter eng h0 in
  1 <= r.1 <= 2
  /\ r.1 < MapDeclutterEngine.max_iterations
  /\ MapDeclutterEngine.scan eng r.2 = (r.2, false)
  /\ (forall (m : ref) (nb : BoundingBox.t),
        In m (MapDeclutterEngine.movable_elements eng) ->
        target eng h0 m = Some nb ->
        MapElement.bbox (r.2 !!! m) = nb
        /\ MapDeclutterEngine.fixed_overlaps eng r.2 m = [])
  /\ (forall m : ref,
        In m (MapDeclutterEngine.movable_elements eng) ->
        MapDeclutterEngine.fixed_overlaps eng h0 m <> [] ->
        MapDeclutterEngine._reposition_element eng h0 m = None ->
        r.2 !!! m = h0 !!! m
        /\ MapDeclutterEngine.fixed_overlaps eng r.2 m <> []
        /\ MapDeclutterEngine._reposition_element eng r.2 m = None).
Proof.
  cbv zeta. rewrite (resolve_clutter_closed h0 els h0 (evolves_refl h0)).
  cbn [fst snd].
  destruct (scan_spec h0 els h0 (evolves_refl h0)) as (He & Hset & _ & _).
  assert (Hagain := scan_again h0 els h0 (evolves_refl h0)).
  split_and!.
  - destruct (MapDeclutterEngine.scan _ h0).2; lia.
  - destruct (MapDeclutterEngine.scan _ h0).2; lia.
  - unfold MapDeclutterEngine.max_iterations.
    destruct (MapDeclutterEngine.scan _ h0).2; lia.
  - exact Hagain.
  - intros m nb Hm Ht.
    assert (Hb : MapElement.bbox ((MapDeclutterEngine.scan
                   (MapDeclutterEngine.init h0 els) h0).1 !!! m) = nb).
    { rewrite (Hset m Hm). unfold settle. by rewrite Ht. }
    split; [exact Hb|].
    apply (valid_no_fixed_overlap h0 els _ m (MapElement.id (h0 !!! m)) He).
    rewrite Hb.
    rewrite (valid_position_stable h0 els _ nb _ (MapElement.id (h0 !!! m)) He).
    by apply target_Some_valid.
  - intros m Hm Hov Hrep.
    assert (Ht : target (MapDeclutterEngine.init h0 els) h0 m = None).
    { unfold target.
      by destruct (MapDeclutterEngine.fixed_overlaps _ h0 m). }
    assert (Hsame : (MapDeclutterEngine.scan
                       (MapDeclutterEngine.init h0 els) h0).1 !!! m = h0 !!! m).
    { rewrite (Hset m Hm). unfold settle. by rewrite Ht. }
    split; [exact Hsame|].
    rewrite (fixed_overlaps_stable h0 els _ h0 m He (evolves_refl h0))
      by (by rewrite Hsame).
    split; [exact Hov|].
    unfold MapDeclutterEngine._reposition_element.
    rewrite (reposition_stable h0 els _ h0 m _ He (evolves_refl h0))
      by (by rewrite Hsame).
    exact Hrep.
Qed.

(** C4. [resolve_clutter] returns a count [n] between 1 and 10.  The count
    is below 10 exactly when one of the [n] iterations that ran committed
    no repositioning; that iteration is the last one, number [n], every
    iteration before it committed at least one, and the returned store is
    the store after [n] iterations. *)
Theorem resolve_clutter_count (h0 : store) (els : list ref) :
  let eng := MapDeclutterEngine.init h0 els in
  let n := (MapDeclutterEngine.resolve_clutter eng h0).1 in
  1 <= n <= 10
  /\ (n < 10
      <-> exists k : nat,
            (1 <= k)%nat /\ Z.of_nat k <= n /\ repositionings eng k h0 = 0%nat)
  /\ (n < 10 ->
      repositionings eng (Z.to_nat n) h0 = 0%nat
      /\ forall k : nat,
           (1 <= k)%nat -> Z.of_nat k < n -> repositionings eng k h0 <> 0%nat)
  /\ (MapDeclutterEngine.resolve_clutter eng h0).2
     = store_after eng (Z.to_nat n) h0.
Proof.
  cbv zeta. rewrite (resolve_clutter_closed h0 els h0 (evolves_refl h0)).
  cbn [fst snd].
  assert (Hagain := scan_again h0 els h0 (evolves_refl h0)).
  assert (Hidle := scan_unproductive h0 els h0 (evolves_refl h0)).
  destruct (MapDeclutterEngine.scan (MapDeclutterEngine.init h0 els) h0).2
    eqn:Hflag.
  - assert (H2 : repositionings (MapDeclutterEngine.init h0 els) 2 h0 = 0%nat).
    { apply repositionings_zero. cbn [Nat.sub store_after]. by rewrite Hagain. }
    assert (H1 : repositionings (MapDeclutterEngine.init h0 els) 1 h0 <> 0%nat).
    { rewrite repositionings_zero. cbn [Nat.sub store_after]. by rewrite Hflag. }
    split_and!; [lia | lia | | |].
    + split; [|lia]. intros _. exists 2%nat. split_and!; [lia | lia | done].
    + intros _. split; [exact H2|].
      intros k Hk1 Hk2. assert (k = 1%nat) as -> by lia. exact H1.
    + change (Z.to_nat 2) with 2%nat. cbn [store_after]. by rewrite Hagain.
  - assert (H1 : repositionings (MapDeclutterEngine.init h0 els) 1 h0 = 0%nat).
    { apply repositionings_zero. cbn [Nat.sub store_after]. exact Hflag. }
    split_and!; [lia | lia | | |].
    + split; [|lia]. intros _. exists 1%nat. split_and!; [lia | lia | done].
    + intros _. split; [exact H1|]. intros k Hk1 Hk2. lia.
    + change (Z.to_nat 1) with 1%nat. by cbn [store_after].
Qed.

(** C7. An element whose movable flag is false has, after
    [resolve_clutter], the record it had before the call: its [bbox] and
    its [moved] flag in particular are unchanged. *)
Theorem resolve_clutter_keeps_fixed (h0 : store) (els : list ref) (r : ref) :
  MapElement.movable (h0 !!! r) = false ->
  let h' := (MapDeclutterEngine.resolve_clutter
               (MapDeclutterEngine.init h0 els) h0).2 in
  MapElement.bbox (h' !!! r) = MapElement.bbox (h0 !!! r)
  /\ MapElement.moved (h' !!! r) = MapElement.moved (h0 !!! r)
  /\ h' !!! r = h0 !!! r.
Proof.
  intros Hfix. cbv zeta.
  assert (He := resolve_clutter_evolves h0 els h0 (evolves_refl h0)).
  by rewrite (evolves_fixed _ _ r He Hfix).
Qed.

Lemma resolve_clutter_keeps_fixed_witness :
  MapElement.movable (scene_label_road !!! 0%nat) = false
  /\ MapElement.bbox
       ((MapDeclutterEngine.resolve_clutter
           (MapDeclutterEngine.init scene_label_road [0; 1]%nat)
           scene_label_road).2 !!! 0%nat)
     = road_box.
Proof.
  split; [vm_compute; reflexivity|].
  apply (resolve_clutter_keeps_fixed scene_label_road [0; 1]%nat 0%nat).
  vm_compute; reflexivity.
Defined.

(** C8. Whatever the store, the list of elements and the number of calls
    to [resolve_clutter], the [original_bbox] of an element built by the
    constructor from box [b] is [b]: same x, y, width and height. *)
Theorem original_bbox_kept (h : store) (r : ref) (i t : string)
    (b : BoundingBox.t) (els : list ref) (k : nat) :
  let h0 := <[r := MapElement.init i t b]> h in
  let h' := resolve_times (MapDeclutterEngine.init h0 els) k h0 in
  MapElement.original_bbox (h' !!! r) = b
  /\ BoundingBox.x (MapElement.original_bbox (h' !!! r)) = BoundingBox.x b
  /\ BoundingBox.y (MapElement.original_bbox (h' !!! r)) = BoundingBox.y b
  /\ BoundingBox.width (MapElement.original_bbox (h' !!! r))
     = BoundingBox.width b
  /\ BoundingBox.height (MapElement.original_bbox (h' !!! r))
     = BoundingBox.height b.
Proof.
  cbv zeta.
  assert (He := resolve_times_evolves (<[r := MapElement.init i t b]> h) els k
                  _ (evolves_refl _)).
  destruct (He r) as [(_ & _ & _ & _ & Ho) _].
  rewrite Ho, lookup_total_insert_eq. by destruct b.
Qed.





(** ** The label and the road *)

Lemma valid_against_single (h : store) (b : BoundingBox.t) (fx : list ref)
    (rd : ref) :
  fx <> [] -> (forall f, In f fx -> f = rd) ->
  MapDeclutterEngine.is_valid_position_loop h b fx
  = negb (BoundingBox.intersects b (MapElement.bbox (h !!! rd))).
Proof.
  induction fx as [|f fx IH]; [done|]. intros _ Hall. simpl.
  rewrite (Hall f) by (by left).
  destruct (BoundingBox.intersects b (MapElement.bbox (h !!! rd))) eqn:E;
    [done|].
  destruct fx as [|g fx]; [done|].
  rewrite IH; [done | done |]. intros g' Hg'. apply Hall. by right.
Qed.

Lemma init_label_movable (i : string) (b : BoundingBox.t) :
  MapElement.movable (MapElement.init i "label" b) = true.
Proof.
  unfold MapElement.init. cbn [MapElement.movable].
  by rewrite PRIORITY_lookup.
Qed.

Lemma init_road_fixed (i : string) (b : BoundingBox.t) :
  MapElement.movable (MapElement.init i "road" b) = false.
Proof.
  unfold MapElement.init. cbn [MapElement.movable].
  by rewrite PRIORITY_lookup.
Qed.

(** The scenario of the specification fails on the demo's label and road: the label
    ends at [(30, 98, 25, 12)], not at [(30, 68, 25, 12)], a box whose
    bottom edge lies on the top edge of the road. *)
Lemma label_not_moved_up :
  let eng := MapDeclutterEngine.init scene_label_road [0; 1]%nat in
  let h' := (MapDeclutterEngine.resolve_clutter eng scene_label_road).2 in
  MapDeclutterEngine.fixed_elements eng = [0%nat]
  /\ MapDeclutterEngine.movable_elements eng = [1%nat]
  /\ MapElement.bbox (scene_label_road !!! 0%nat) = BoundingBox.mk 20 80 160 15
  /\ MapElement.bbox (scene_label_road !!! 1%nat) = BoundingBox.mk 30 83 25 12
  /\ MapElement.bbox (h' !!! 1%nat) = BoundingBox.mk 30 98 25 12
  /\ MapElement.bbox (h' !!! 1%nat) <> BoundingBox.mk 30 68 25 12
  /\ BoundingBox.intersects (BoundingBox.mk 30 68 25 12)
                            (BoundingBox.mk 20 80 160 15) = true.
Proof.
  cbv zeta. split_and!; try (vm_compute; reflexivity).
  vm_compute. discriminate.
Qed.

(** C2, amended.  In an engine whose only fixed element is a road with box
    [(20, 80, 160, 15)], a label with box [(30, 83, 25, 12)] and another id
    is relocated by [resolve_clutter] to [(30, 98, 25, 12)], the second
    candidate offset [(0, 15)], and its moved flag is set.  The first
    candidate [(30, 68, 25, 12)], offset [(0, -15)], touches the top edge
    of the road and is rejected. *)
Theorem label_moved_down (h0 : store) (els : list ref) (l rd : ref)
    (il ir : string) :
  In l els -> In rd els ->
  h0 !!! l = MapElement.init il "label" (BoundingBox.mk 30 83 25 12) ->
  h0 !!! rd = MapElement.init ir "road" (BoundingBox.mk 20 80 160 15) ->
  il <> ir ->
  (forall f, In f els -> MapElement.movable (h0 !!! f) = false -> f = rd) ->
  let eng := MapDeclutterEngine.init h0 els in
  let h' := (MapDeclutterEngine.resolve_clutter eng h0).2 in
  MapElement.bbox (h' !!! l) = BoundingBox.mk 30 98 25 12
  /\ MapElement.moved (h' !!! l) = true
  /\ BoundingBox.move (BoundingBox.mk 30 83 25 12) 0 (-15)
     = BoundingBox.mk 30 68 25 12
  /\ MapDeclutterEngine._is_valid_position eng h0
       (BoundingBox.mk 30 68 25 12) il = false
  /\ BoundingBox.move (BoundingBox.mk 30 83 25 12) 0 15
     = BoundingBox.mk 30 98 25 12.
Proof.
  intros Hl Hrd Hlab Hroad Hne Honly. cbv zeta.
  assert (Hlm : MapElement.movable (h0 !!! l) = true)
    by (rewrite Hlab; apply init_label_movable).
  assert (Hrf : MapElement.movable (h0 !!! rd) = false)
    by (rewrite Hroad; apply init_road_fixed).
  assert (Hfx : In rd (MapDeclutterEngine.fixed_elements
                         (MapDeclutterEngine.init h0 els)))
    by (by apply fixed_elements_In).
  assert (Hvalid : forall b i,
             MapDeclutterEngine._is_valid_position
               (MapDeclutterEngine.init h0 els) h0 b i
             = negb (BoundingBox.intersects b (BoundingBox.mk 20 80 160 15))).
  { intros b i. unfold MapDeclutterEngine._is_valid_position.
    rewrite (valid_against_single h0 b _ rd).
    - by rewrite Hroad.
    - intros E. rewrite E in Hfx. destruct Hfx.
    - intros f [Hf1 Hf2]%fixed_elements_In. by apply Honly. }
  assert (Hov : In rd (MapDeclutterEngine.fixed_overlaps
                         (MapDeclutterEngine.init h0 els) h0 l)).
  { apply fixed_overlaps_In. rewrite Hlab, Hroad. cbn. split_and!; done. }
  assert (Ht : target (MapDeclutterEngine.init h0 els) h0 l
               = Some (BoundingBox.mk 30 98 25 12)).
  { unfold target.
    destruct (MapDeclutterEngine.fixed_overlaps _ h0 l); [destruct Hov|].
    unfold MapDeclutterEngine._reposition_element,
      MapDeclutterEngine.MOVEMENT_OFFSETS.
    cbn [MapDeclutterEngine.reposition_loop]. rewrite !Hvalid, Hlab.
    reflexivity. }
  rewrite (resolve_clutter_closed h0 els h0 (evolves_refl h0)). cbn [snd].
  destruct (scan_spec h0 els h0 (evolves_refl h0)) as (_ & Hset & _ & _).
  rewrite (Hset l) by (by apply movable_elements_In).
  unfold settle. rewrite Ht, Hvalid. by split_and!.
Qed.

Lemma label_moved_down_witness :
  let eng := MapDeclutterEngine.init scene_label_road [0; 1]%nat in
  let h' := (MapDeclutterEngine.resolve_clutter eng scene_label_road).2 in
  MapElement.bbox (h' !!! 1%nat) = BoundingBox.mk 30 98 25 12
  /\ MapElement.moved (h' !!! 1%nat) = true.
Proof.
  cbv zeta.
  destruct (label_moved_down scene_label_road [0; 1]%nat 1%nat 0%nat
              "label_1" "road_1") as (H1 & H2 & _).
  - right; left; reflexivity.
  - left; reflexivity.
  - vm_compute; reflexivity.
  - vm_compute; reflexivity.
  - discriminate.
  - intros f [<-|[<-|[]]] Hf; [reflexivity|].
    vm_compute in Hf. discriminate Hf.
  - split; [exact H1 | exact H2].
Defined.

(** ** Statistics *)

Lemma count_fold_filter {A : Type} (p : A -> bool) (l : list A) (acc : Z) :
  fold_left (fun acc e => if p e then acc + 1 else acc) l acc
  = acc + MapDeclutterEngine.len (List.filter p l).
Proof.
  unfold MapDeclutterEngine.len. revert acc.
  induction l as [|a l IH]; intros acc; simpl; [lia|].
  rewrite IH. destruct (p a); simpl; lia.
Qed.



(** ** Further properties of the resolution *)

(** X4. An element that overlaps no fixed element, as [resolve_clutter]
    detects overlaps, is left as it is: same [bbox], same [moved] flag. *)
Theorem resolve_clutter_leaves_clear (h0 : store) (els : list ref) (m : ref) :
  MapDeclutterEngine.fixed_overlaps (MapDeclutterEngine.init h0 els) h0 m = [] ->
  (MapDeclutterEngine.resolve_clutter
     (MapDeclutterEngine.init h0 els) h0).2 !!! m = h0 !!! m.
Proof.
  intros Hclear.
  rewrite (resolve_clutter_closed h0 els h0 (evolves_refl h0)). cbn [snd].
  destruct (scan_spec h0 els h0 (evolves_refl h0)) as (_ & Hin & Hout & _).
  destruct (in_dec Nat.eq_dec m
              (MapDeclutterEngine.movable_elements
                 (MapDeclutterEngine.init h0 els))) as [Hm|Hm].
  - rewrite (Hin m Hm). unfold settle, target. by rewrite Hclear.
  - by apply Hout.
Qed.

Lemma resolve_clutter_leaves_clear_witness :
  (MapDeclutterEngine.resolve_clutter
     (MapDeclutterEngine.init scene_three_labels [0; 1; 2; 3]%nat)
     scene_three_labels).2 !!! 2%nat
  = MapElement.init "label_2" "label" (BoundingBox.mk 30 200 25 12).
Proof.
  rewrite (resolve_clutter_leaves_clear scene_three_labels
             [0; 1; 2; 3]%nat 2%nat); vm_compute; reflexivity.
Defined.

(** X6. Calling [resolve_clutter] again on the resolved store runs one
    iteration, commits nothing and returns the same store. *)
Theorem resolve_clutter_twice (h0 : store) (els : list ref) :
  let eng := MapDeclutterEngine.init h0 els in
  let h' := (MapDeclutterEngine.resolve_clutter eng h0).2 in
  MapDeclutterEngine.resolve_clutter eng h' = (1, h').
Proof.
  cbv zeta.
  assert (He := resolve_clutter_evolves h0 els h0 (evolves_refl h0)).
  rewrite (resolve_clutter_closed h0 els _ He).
  rewrite (resolve_clutter_closed h0 els h0 (evolves_refl h0)). cbn [snd].
  by rewrite (scan_again h0 els h0 (evolves_refl h0)).
Qed.

(** X7. For an engine built by the constructor, [get_statistics] reports
    counts that add up: total = fixed + movable, and the three counts are
    the lengths of the engine's three lists. *)
Theorem get_statistics_counts (h0 : store) (els : list ref) (h : store) :
  let eng := MapDeclutterEngine.init h0 els in
  let s := MapDeclutterEngine.get_statistics eng h in
  MapDeclutterEngine.total_elements s = MapDeclutterEngine.len els
  /\ MapDeclutterEngine.total_elements s
     = MapDeclutterEngine.n_fixed_elements s
       + MapDeclutterEngine.n_movable_elements s.
Proof.
  cbv zeta. unfold MapDeclutterEngine.get_statistics, MapDeclutterEngine.len.
  cbn [MapDeclutterEngine.total_elements MapDeclutterEngine.n_fixed_elements
       MapDeclutterEngine.n_movable_elements MapDeclutterEngine.init
       MapDeclutterEngine.elements MapDeclutterEngine.fixed_elements
       MapDeclutterEngine.movable_elements].
  split; [reflexivity|].
  assert (HP := Permutation_length
                  (filter_split_perm
                     (fun e => MapElement.movable (h0 !!! e)) els)).
  rewrite length_app in HP. lia.
Qed.

(** X8. The [moved] flag is never reset: after [resolve_clutter] it is set
    exactly for the elements that had it set before and for the movable
    elements of the engine that the call repositioned. *)
Theorem moved_write_once (h0 : store) (els : list ref) (r : ref) :
  let eng := MapDeclutterEngine.init h0 els in
  let h' := (MapDeclutterEngine.resolve_clutter eng h0).2 in
  MapElement.moved (h' !!! r) = true
  <-> MapElement.moved (h0 !!! r) = true
      \/ (In r (MapDeclutterEngine.movable_elements eng)
          /\ target eng h0 r <> None).
Proof.
  cbv zeta.
  rewrite (resolve_clutter_closed h0 els h0 (evolves_refl h0)). cbn [snd].
  destruct (scan_spec h0 els h0 (evolves_refl h0)) as (_ & Hin & Hout & _).
  destruct (in_dec Nat.eq_dec r
              (MapDeclutterEngine.movable_elements
                 (MapDeclutterEngine.init h0 els))) as [Hm|Hm].
  - rewrite (Hin r Hm). unfold settle.
    destruct (target (MapDeclutterEngine.init h0 els) h0 r) eqn:Ht.
    + cbn. split; [intros _; right; done | done].
    + split; [by left | intros [?|[_ ?]]; done].
  - rewrite (Hout r Hm). split; [by left | intros [?|[? _]]; done].
Qed.

(** ** Translations *)


Lemma offsets_nonzero :
  Forall (fun off : Z * Z => off.1 <> 0 \/ off.2 <> 0)
         MapDeclutterEngine.MOVEMENT_OFFSETS.
Proof. repeat constructor; cbn; lia. Qed.

Lemma move_offset_neq (b : BoundingBox.t) (dx dy : Z) :
  In (dx, dy) MapDeclutterEngine.MOVEMENT_OFFSETS ->
  BoundingBox.move b dx dy <> b.
Proof.
  intros Hin Heq.
  assert (Hnz := proj1 (List.Forall_forall _ _) offsets_nonzero _ Hin).
  cbn in Hnz. destruct b as [xb yb wb hb].
  unfold BoundingBox.move in Heq. cbn in Heq. injection Heq. lia.
Qed.

(** ** [find_overlaps] and [_reposition_element] *)


Lemma reposition_loop_first (self : MapDeclutterEngine.t) (h : store)
    (m : ref) (offsets : list (Z * Z)) :
  match MapDeclutterEngine.reposition_loop self h m offsets with
  | Some nb =>
      exists pre dx dy post,
        offsets = pre ++ (dx, dy) :: post
        /\ nb = BoundingBox.move (MapElement.bbox (h !!! m)) dx dy
        /\ MapDeclutterEngine._is_valid_position self h nb
             (MapElement.id (h !!! m)) = true
        /\ Forall
             (fun off =>
                MapDeclutterEngine._is_valid_position self h
                  (BoundingBox.move (MapElement.bbox (h !!! m)) off.1 off.2)
                  (MapElement.id (h !!! m)) = false)
             pre
  | None =>
      Forall
        (fun off =>
           MapDeclutterEngine._is_valid_position self h
             (BoundingBox.move (MapElement.bbox (h !!! m)) off.1 off.2)
             (MapElement.id (h !!! m)) = false)
        offsets
  end.
Proof.
  induction offsets as [|[dx dy] offsets IH]; cbn [MapDeclutterEngine.reposition_loop].
  - constructor.
  - destruct (MapDeclutterEngine._is_valid_position self h
                (BoundingBox.move (MapElement.bbox (h !!! m)) dx dy)
                (MapElement.id (h !!! m))) eqn:E.
    + exists [], dx, dy, offsets. split_and!; [done | done | exact E | constructor].
    + destruct (MapDeclutterEngine.reposition_loop self h m offsets) as [nb|].
      * destruct IH as (pre & dx' & dy' & post & -> & -> & Hv & Hpre).
        exists ((dx, dy) :: pre), dx', dy', post.
        split_and!; [done | done | exact Hv |]. by constructor.
      * by constructor.
Qed.

(** X10. [_reposition_element] returns the translation of the element's
    box by the first of the 8 offsets, in their listed order, that
    [_is_valid_position] accepts: every offset before it is rejected, the
    box returned is valid and has the size of the element's box.  It
    returns nothing exactly when all 8 offsets are rejected. *)
Theorem reposition_first_valid (self : MapDeclutterEngine.t) (h : store)
    (m : ref) :
  match MapDeclutterEngine._reposition_element self h m with
  | Some nb =>
      exists pre dx dy post,
        MapDeclutterEngine.MOVEMENT_OFFSETS = pre ++ (dx, dy) :: post
        /\ nb = BoundingBox.move (MapElement.bbox (h !!! m)) dx dy
        /\ BoundingBox.width nb = BoundingBox.width (MapElement.bbox (h !!! m))
        /\ BoundingBox.height nb
           = BoundingBox.height (MapElement.bbox (h !!! m))
        /\ (forall f, In f (MapDeclutterEngine.fixed_elements self) ->
              BoundingBox.intersects nb (MapElement.bbox (h !!! f)) = false)
        /\ (forall off, In off pre ->
              exists f, In f (MapDeclutterEngine.fixed_elements self)
                /\ BoundingBox.intersects
                     (BoundingBox.move (MapElement.bbox (h !!! m)) off.1 off.2)
                     (MapElement.bbox (h !!! f)) = true)
  | None =>
      forall off, In off MapDeclutterEngine.MOVEMENT_OFFSETS ->
        exists f, In f (MapDeclutterEngine.fixed_elements self)
          /\ BoundingBox.intersects
               (BoundingBox.move (MapElement.bbox (h !!! m)) off.1 off.2)
               (MapElement.bbox (h !!! f)) = true
  end.
Proof.
  assert (Hinv : forall b i,
            MapDeclutterEngine._is_valid_position self h b i = false ->
            exists f, In f (MapDeclutterEngine.fixed_elements self)
              /\ BoundingBox.intersects b (MapElement.bbox (h !!! f)) = true).
  { intros b i. unfold MapDeclutterEngine._is_valid_position.
    induction (MapDeclutterEngine.fixed_elements self) as [|f fx IH];
      cbn [MapDeclutterEngine.is_valid_position_loop]; [done|].
    destruct (BoundingBox.intersects b (MapElement.bbox (h !!! f))) eqn:E.
    - intros _. exists f. split; [by left | done].
    - intros Hf. destruct (IH Hf) as (g & Hg & Hint).
      exists g. split; [by right | done]. }
  unfold MapDeclutterEngine._reposition_element.
  assert (H := reposition_loop_first self h m MapDeclutterEngine.MOVEMENT_OFFSETS).
  destruct (MapDeclutterEngine.reposition_loop self h m
              MapDeclutterEngine.MOVEMENT_OFFSETS) as [nb|].
  - destruct H as (pre & dx & dy & post & Hoff & -> & Hv & Hpre).
    exists pre, dx, dy, post. split_and!; try done.
    + by apply is_valid_position_loop_true.
    + intros off Hin. eapply Hinv.
      exact (proj1 (List.Forall_forall _ _) Hpre off Hin).
  - intros off Hin. eapply Hinv.
    exact (proj1 (List.Forall_forall _ _) H off Hin).
Qed.

(** ** What one call of [resolve_clutter] does to an element *)

Lemma target_offset (self : MapDeclutterEngine.t) (h : store) (m : ref)
    (nb : BoundingBox.t) :
  target self h m = Some nb ->
  exists dx dy, In (dx, dy) MapDeclutterEngine.MOVEMENT_OFFSETS
    /\ nb = BoundingBox.move (MapElement.bbox (h !!! m)) dx dy.
Proof.
  unfold target. destruct (MapDeclutterEngine.fixed_overlaps self h m); [done|].
  intros H. by apply reposition_loop_Some in H as [_ ?].
Qed.

(** The record of any element after the call, from the store before it. *)
Lemma resolve_clutter_lookup (h0 : store) (els : list ref) (r : ref) :
  let eng := MapDeclutterEngine.init h0 els in
  (MapDeclutterEngine.resolve_clutter eng h0).2 !!! r
  = if in_dec Nat.eq_dec r (MapDeclutterEngine.movable_elements eng)
    then settle eng h0 r else h0 !!! r.
Proof.
  cbv zeta. rewrite (resolve_clutter_closed h0 els h0 (evolves_refl h0)).
  cbn [snd].
  destruct (scan_spec h0 els h0 (evolves_refl h0)) as (_ & Hin & Hout & _).
  destruct (in_dec Nat.eq_dec r _); [by apply Hin | by apply Hout].
Qed.

(** X11. With no fixed element, or with no movable element (an empty
    engine in particular), [resolve_clutter] runs one iteration, returns 1
    and leaves the store as it is. *)
Theorem resolve_clutter_nothing_to_do (h0 : store) (els : list ref) :
  MapDeclutterEngine.fixed_elements (MapDeclutterEngine.init h0 els) = []
  \/ MapDeclutterEngine.movable_elements (MapDeclutterEngine.init h0 els) = [] ->
  MapDeclutterEngine.resolve_clutter (MapDeclutterEngine.init h0 els) h0
  = (1, h0).
Proof.
  intros Hnone.
  assert (Hidle : MapDeclutterEngine.scan (MapDeclutterEngine.init h0 els) h0
                  = (h0, false)).
  { unfold MapDeclutterEngine.scan. apply scan_idle. intros m Hm.
    destruct Hnone as [Hfx|Hmv]; [|rewrite Hmv in Hm; destruct Hm].
    unfold target.
    destruct (MapDeclutterEngine.fixed_overlaps _ h0 m) as [|o l] eqn:E;
      [done|].
    assert (Ho : In o (MapDeclutterEngine.fixed_overlaps
                         (MapDeclutterEngine.init h0 els) h0 m))
      by (rewrite E; by left).
    apply fixed_overlaps_In in Ho as (Hin & _ & _ & Hmov).
    assert (Hf : In o (MapDeclutterEngine.fixed_elements
                         (MapDeclutterEngine.init h0 els)))
      by (by apply fixed_elements_In).
    rewrite Hfx in Hf. destruct Hf. }
  rewrite (resolve_clutter_closed h0 els h0 (evolves_refl h0)).
  by rewrite Hidle.
Qed.

Lemma resolve_clutter_nothing_to_do_witness :
  MapDeclutterEngine.resolve_clutter
    (MapDeclutterEngine.init scene_label_road []) scene_label_road
  = (1, scene_label_road).
Proof.
  apply (resolve_clutter_nothing_to_do scene_label_road []).
  left. reflexivity.
Defined.

(** X12. [resolve_clutter] returns 1 or 2.  When it returns 1 the store is
    the one it was given; it returns 2 exactly when it changed the box of
    at least one listed element, and every element whose box it changed
    has its [moved] flag set. *)
Theorem resolve_clutter_returns (h0 : store) (els : list ref) :
  let eng := MapDeclutterEngine.init h0 els in
  let r := MapDeclutterEngine.resolve_clutter eng h0 in
  (r.1 = 1 \/ r.1 = 2)
  /\ (r.1 = 1 -> r.2 = h0)
  /\ (r.1 = 2
      <-> exists m, In m els
            /\ MapElement.bbox (r.2 !!! m) <> MapElement.bbox (h0 !!! m))
  /\ (forall m, MapElement.bbox (r.2 !!! m) <> MapElement.bbox (h0 !!! m) ->
        MapElement.moved (r.2 !!! m) = true).
Proof.
  cbv zeta.
  assert (Hlook := resolve_clutter_lookup h0 els). cbv zeta in Hlook.
  rewrite (resolve_clutter_closed h0 els h0 (evolves_refl h0)) in *.
  cbn [fst snd] in *.
  destruct (scan_spec h0 els h0 (evolves_refl h0)) as (_ & _ & _ & Hflag).
  assert (Hidle := scan_unproductive h0 els h0 (evolves_refl h0)).
  destruct (MapDeclutterEngine.scan (MapDeclutterEngine.init h0 els) h0)
    as [h1 flag] eqn:Hscan. cbn [fst snd] in *.
  split_and!.
  - destruct flag; auto.
  - destruct flag; [done|]. intros _. specialize (Hidle eq_refl). congruence.
  - split.
    + destruct flag; [intros _|done].
      destruct (proj1 Hflag eq_refl) as (m & Hm & Ht).
      exists m. split; [by apply movable_elements_In in Hm as [? _]|].
      rewrite Hlook.
      destruct (in_dec Nat.eq_dec m _) as [_|Hn]; [|by destruct Hn].
      unfold settle.
      destruct (target (MapDeclutterEngine.init h0 els) h0 m) as [nb|] eqn:T;
        [|done].
      apply target_offset in T as (dx & dy & Hoff & ->). cbn.
      by apply move_offset_neq.
    + intros (m & _ & Hne). destruct flag; [done|].
      specialize (Hidle eq_refl). congruence.
  - intros m Hne. rewrite Hlook in *.
    destruct (in_dec Nat.eq_dec m _); [|done]. unfold settle in *.
    by destruct (target (MapDeclutterEngine.init h0 els) h0 m).
Qed.

(** X13. One call of [resolve_clutter] either leaves an element as it is
    or translates its box by exactly one of the 8 offsets and sets its
    [moved] flag; the new box then intersects no fixed element.  Width and
    height never change. *)
Theorem resolve_clutter_translates (h0 : store) (els : list ref) (r : ref) :
  let eng := MapDeclutterEngine.init h0 els in
  let h' := (MapDeclutterEngine.resolve_clutter eng h0).2 in
  BoundingBox.width (MapElement.bbox (h' !!! r))
  = BoundingBox.width (MapElement.bbox (h0 !!! r))
  /\ BoundingBox.height (MapElement.bbox (h' !!! r))
     = BoundingBox.height (MapElement.bbox (h0 !!! r))
  /\ (h' !!! r = h0 !!! r
      \/ exists dx dy,
           In (dx, dy) MapDeclutterEngine.MOVEMENT_OFFSETS
           /\ MapElement.bbox (h' !!! r)
              = BoundingBox.move (MapElement.bbox (h0 !!! r)) dx dy
           /\ MapElement.moved (h' !!! r) = true
           /\ In r (MapDeclutterEngine.movable_elements eng)
           /\ forall f, In f (MapDeclutterEngine.fixed_elements eng) ->
                BoundingBox.intersects (MapElement.bbox (h' !!! r))
                                       (MapElement.bbox (h' !!! f)) = false).
Proof.
  cbv zeta.
  assert (He := resolve_clutter_evolves h0 els h0 (evolves_refl h0)).
  rewrite (resolve_clutter_lookup h0 els r).
  destruct (in_dec Nat.eq_dec r _) as [Hm|Hm]; [|by split_and!; [..|left]].
  unfold settle.
  destruct (target (MapDeclutterEngine.init h0 els) h0 r) as [nb|] eqn:T;
    [|by split_and!; [..|left]].
  assert (Hv := target_Some_valid h0 els h0 r nb T).
  apply target_offset in T as (dx & dy & Hoff & ->).
  cbn [MapElement.bbox MapElement.set_moved MapElement.set_bbox
       MapElement.moved].
  split_and!; [done | done |]. right. exists dx, dy.
  split_and!; try done.
  intros f Hf. rewrite (evolves_fixed _ _ f He).
  - unfold MapDeclutterEngine._is_valid_position in Hv.
    rewrite is_valid_position_loop_true in Hv. by apply Hv.
  - by apply fixed_elements_In in Hf as [_ ?].
Qed.

(** ** Independence of the order of the elements *)

Lemma valid_loop_same_set (h : store) (b : BoundingBox.t) (fx fx' : list ref) :
  (forall f, In f fx <-> In f fx') ->
  MapDeclutterEngine.is_valid_position_loop h b fx
  = MapDeclutterEngine.is_valid_position_loop h b fx'.
Proof.
  intros Hset. apply eq_true_iff_eq. rewrite !is_valid_position_loop_true.
  split; intros H f Hf; apply H; by apply Hset.
Qed.

Lemma target_same_set (self self' : MapDeclutterEngine.t) (h : store)
    (m : ref) :
  (forall o, In o (MapDeclutterEngine.elements self)
             <-> In o (MapDeclutterEngine.elements self')) ->
  (forall f, In f (MapDeclutterEngine.fixed_elements self)
             <-> In f (MapDeclutterEngine.fixed_elements self')) ->
  target self h m = target self' h m.
Proof.
  intros Hel Hfx.
  assert (Hrep : forall offsets,
            MapDeclutterEngine.reposition_loop self h m offsets
            = MapDeclutterEngine.reposition_loop self' h m offsets).
  { induction offsets as [|[dx dy] offsets IH];
      cbn [MapDeclutterEngine.reposition_loop]; [done|].
    unfold MapDeclutterEngine._is_valid_position.
    rewrite (valid_loop_same_set h _ _ _ Hfx). by rewrite IH. }
  assert (Hov : MapDeclutterEngine.fixed_overlaps self h m = []
                <-> MapDeclutterEngine.fixed_overlaps self' h m = []).
  { rewrite !fixed_overlaps_filter, !filter_nil_iff.
    split; intros H o Ho; apply H; by apply Hel. }
  unfold target, MapDeclutterEngine._reposition_element. rewrite Hrep.
  destruct (MapDeclutterEngine.fixed_overlaps self h m),
           (MapDeclutterEngine.fixed_overlaps self' h m); try done.
  - discriminate (proj1 Hov eq_refl).
  - discriminate (proj2 Hov eq_refl).
Qed.

(** X5. The outcome of [resolve_clutter] depends only on which elements
    are listed, not on their order nor on how often each is listed: two
    engines built from lists with the same members return the same count
    and leave every element with the same record. *)
Theorem resolve_clutter_order_independent (h0 : store) (els els' : list ref) :
  (forall r, In r els <-> In r els') ->
  let r1 := MapDeclutterEngine.resolve_clutter
              (MapDeclutterEngine.init h0 els) h0 in
  let r2 := MapDeclutterEngine.resolve_clutter
              (MapDeclutterEngine.init h0 els') h0 in
  r1.1 = r2.1 /\ forall r, r1.2 !!! r = r2.2 !!! r.
Proof.
  intros Hset. cbv zeta.
  assert (Hmv : forall m,
            In m (MapDeclutterEngine.movable_elements
                    (MapDeclutterEngine.init h0 els))
            <-> In m (MapDeclutterEngine.movable_elements
                        (MapDeclutterEngine.init h0 els'))).
  { intros m. rewrite !movable_elements_In, Hset. tauto. }
  assert (Htg : forall m,
            target (MapDeclutterEngine.init h0 els) h0 m
            = target (MapDeclutterEngine.init h0 els') h0 m).
  { intros m. apply target_same_set; [exact Hset|].
    intros f. rewrite !fixed_elements_In, Hset. tauto. }
  split.
  - rewrite !resolve_clutter_closed by apply evolves_refl. cbn [fst].
    destruct (scan_spec h0 els h0 (evolves_refl h0)) as (_ & _ & _ & H1).
    destruct (scan_spec h0 els' h0 (evolves_refl h0)) as (_ & _ & _ & H2).
    assert (Hb : (MapDeclutterEngine.scan (MapDeclutterEngine.init h0 els) h0).2
                 = (MapDeclutterEngine.scan
                      (MapDeclutterEngine.init h0 els') h0).2).
    { apply eq_true_iff_eq. rewrite H1, H2.
      split; intros (m & Hm & Ht); exists m.
      - split; [by apply Hmv | by rewrite <- Htg].
      - split; [by apply Hmv | by rewrite Htg]. }
    by rewrite Hb.
  - intros r. rewrite (resolve_clutter_lookup h0 els r),
      (resolve_clutter_lookup h0 els' r).
    unfold settle. rewrite Htg.
    destruct (in_dec Nat.eq_dec r _) as [H1|H1],
             (in_dec Nat.eq_dec r _) as [H2|H2]; try done.
    + destruct H2. by apply Hmv.
    + destruct H1. by apply Hmv.
Qed.

Lemma resolve_clutter_order_independent_witness :
  (MapDeclutterEngine.resolve_clutter
     (MapDeclutterEngine.init demo_store demo_refs) demo_store).1
  = (MapDeclutterEngine.resolve_clutter
       (MapDeclutterEngine.init demo_store (rev demo_refs)) demo_store).1.
Proof.
  apply (resolve_clutter_order_independent demo_store demo_refs (rev demo_refs)).
  intros r. apply in_rev.
Defined.

(** ** Elements that cannot be moved *)





(** ** Statistics and the demo's report after a resolution *)

Lemma fresh_demo : fresh demo_store demo_refs.
Proof.
  intros r Hr. unfold demo_refs in Hr. cbn in Hr.
  repeat (destruct Hr as [<-|Hr]; [split; vm_compute; reflexivity|]).
  destruct Hr.
Defined.

(** X15. When no listed element has its [moved] flag set before
    [resolve_clutter], the [elements_moved] that [get_statistics] reports
    afterwards is the number of entries of [movable_elements] whose box
    the call changed. *)
Theorem elements_moved_counts_changes (h0 : store) (els : list ref) :
  (forall r, In r els -> MapElement.moved (h0 !!! r) = false) ->
  let eng := MapDeclutterEngine.init h0 els in
  let h' := (MapDeclutterEngine.resolve_clutter eng h0).2 in
  MapDeclutterEngine.elements_moved (MapDeclutterEngine.get_statistics eng h')
  = MapDeclutterEngine.len
      (List.filter
         (fun m => bool_decide (MapElement.bbox (h' !!! m)
                                <> MapElement.bbox (h0 !!! m)))
         (MapDeclutterEngine.movable_elements eng)).
Proof.
  intros Hflags. cbv zeta.
  unfold MapDeclutterEngine.get_statistics.
  cbn [MapDeclutterEngine.elements_moved].
  rewrite (count_fold_filter
             (fun e => MapElement.moved
                         ((MapDeclutterEngine.resolve_clutter
                             (MapDeclutterEngine.init h0 els) h0).2 !!! e))).
  rewrite Z.add_0_l. f_equal. apply filter_ext_in. intros m Hm.
  rewrite (resolve_clutter_lookup h0 els m).
  destruct (in_dec Nat.eq_dec m _) as [_|Hn]; [|by destruct Hn].
  unfold settle.
  destruct (target (MapDeclutterEngine.init h0 els) h0 m) as [nb|] eqn:T.
  - apply target_offset in T as (dx & dy & Hoff & ->). cbn.
    symmetry. apply bool_decide_eq_true_2. by apply move_offset_neq.
  - rewrite (Hflags m) by (by apply movable_elements_In in Hm as [? _]).
    symmetry. by apply bool_decide_eq_false_2; intros H; apply H.
Qed.

Lemma elements_moved_counts_changes_witness :
  MapDeclutterEngine.elements_moved
    (MapDeclutterEngine.get_statistics
       (MapDeclutterEngine.init demo_store demo_refs)
       (MapDeclutterEngine.resolve_clutter
          (MapDeclutterEngine.init demo_store demo_refs) demo_store).2)
  = 5.
Proof.
  rewrite (elements_moved_counts_changes demo_store demo_refs).
  - vm_compute; reflexivity.
  - intros r Hr. by destruct (fresh_demo r Hr).
Defined.




(** ** The visualizer *)






Lemma count_overlaps_loop_ext (h h' : store) (els : list ref) (c : Z) :
  (forall r, h' !!! r = h !!! r) ->
  MapVisualizer.count_overlaps_loop h' els c
  = MapVisualizer.count_overlaps_loop h els c.
Proof.
  intros Hpt. revert c.
  induction els as [|a l IH]; intros c; cbn [MapVisualizer.count_overlaps_loop];
    [done|].
  rewrite IH. f_equal.
  rewrite !(count_fold_filter
              (fun b => BoundingBox.intersects (MapElement.bbox (_ !!! a))
                                               (MapElement.bbox (_ !!! b)))).
  f_equal. f_equal. apply filter_ext. intros b. by rewrite !Hpt.
Qed.

Lemma draw_element_ext (h h' : store) (ax : list MapVisualizer.patch)
    (e : ref) (show_original : bool) :
  h' !!! e = h !!! e ->
  MapVisualizer.draw_element h' ax e show_original
  = MapVisualizer.draw_element h ax e show_original.
Proof. intros Hpt. unfold MapVisualizer.draw_element. by rewrite Hpt. Qed.

Lemma draw_before_spec (h h1 : store) (ax : list MapVisualizer.patch)
    (e : ref) :
  (forall r, h1 !!! r = h !!! r) ->
  let st := MapVisualizer.draw_before (h1, ax) e in
  (forall r, st.1 !!! r = h !!! r)
  /\ st.2
     = ax ++ [MapVisualizer.mk_patch
                (if MapElement.moved (h !!! e)
                 then MapElement.original_bbox (h !!! e)
                 else MapElement.bbox (h !!! e))
                (default "#95A5A6"%string
                   (MapVisualizer.COLORS !! MapElement.type (h !!! e)))
                (if MapVisualizer.drawn_fixed (MapElement.type (h !!! e))
                 then MapVisualizer.Filled else MapVisualizer.Outlined)].
Proof.
  intros Hpt. cbv zeta. unfold MapVisualizer.draw_before.
  rewrite (Hpt e). destruct (MapElement.moved (h !!! e)) eqn:Hmv; cbn [fst snd].
  - split.
    + intros r. unfold setattr_bbox. rewrite !lookup_total_insert.
      repeat case_decide; subst; rewrite ?Hpt; try done.
      by destruct (h !!! r).
    + unfold MapVisualizer.draw_element, setattr_bbox.
      rewrite lookup_total_insert_eq, Hpt.
      cbn [MapElement.bbox MapElement.type MapElement.set_bbox
           MapElement.moved MapElement.original_bbox andb].
      by destruct (MapVisualizer.drawn_fixed (MapElement.type (h !!! e))).
  - split; [done|].
    unfold MapVisualizer.draw_element. rewrite Hpt. cbn [andb].
    by destruct (MapVisualizer.drawn_fixed (MapElement.type (h !!! e))).
Qed.

Lemma draw_before_fold (h : store) (els : list ref) :
  forall (h1 : store) (ax : list MapVisualizer.patch),
    (forall r, h1 !!! r = h !!! r) ->
    let st := fold_left MapVisualizer.draw_before els (h1, ax) in
    (forall r, st.1 !!! r = h !!! r)
    /\ st.2
       = ax ++ List.map
                 (fun e =>
                    MapVisualizer.mk_patch
                      (if MapElement.moved (h !!! e)
                       then MapElement.original_bbox (h !!! e)
                       else MapElement.bbox (h !!! e))
                      (default "#95A5A6"%string
                         (MapVisualizer.COLORS !! MapElement.type (h !!! e)))
                      (if MapVisualizer.drawn_fixed (MapElement.type (h !!! e))
                       then MapVisualizer.Filled else MapVisualizer.Outlined))
                 els.
Proof.
  induction els as [|e els IH]; intros h1 ax Hpt; cbv zeta; cbn [fold_left].
  - cbn. by rewrite app_nil_r.
  - destruct (draw_before_spec h h1 ax e Hpt) as [Hpt' Hax].
    destruct (MapVisualizer.draw_before (h1, ax) e) as [h2 ax2].
    cbn [fst snd] in Hpt', Hax.
    destruct (IH h2 ax2 Hpt') as [Hpt'' Hax']. split; [exact Hpt''|].
    rewrite Hax', Hax. cbn [List.map]. by rewrite <- app_assoc.
Qed.

Lemma draw_after_fold (h h1 : store) (els : list ref) :
  (forall r, h1 !!! r = h !!! r) ->
  forall ax : list MapVisualizer.patch,
    fold_left (fun ax element => MapVisualizer.draw_element h1 ax element true)
              els ax
    = ax ++ flat_map
              (fun e =>
                 MapVisualizer.mk_patch
                   (MapElement.bbox (h !!! e))
                   (default "#95A5A6"%string
                      (MapVisualizer.COLORS !! MapElement.type (h !!! e)))
                   (if MapVisualizer.drawn_fixed (MapElement.type (h !!! e))
                    then MapVisualizer.Filled else MapVisualizer.Outlined)
                 :: (if MapElement.moved (h !!! e)
                     then [MapVisualizer.mk_patch
                             (MapElement.original_bbox (h !!! e))
                             "gray"%string MapVisualizer.Dashed]
                     else []))
              els.
Proof.
  intros Hpt. induction els as [|e els IH]; intros ax; cbn [fold_left flat_map].
  - by rewrite app_nil_r.
  - rewrite IH. unfold MapVisualizer.draw_element. rewrite Hpt. cbn [andb].
    destruct (MapVisualizer.drawn_fixed (MapElement.type (h !!! e))),
             (MapElement.moved (h !!! e)); cbn [app];
      by rewrite <- ?app_assoc.
Qed.

Lemma visualize_before (self : MapVisualizer.t) (h : store) :
  MapVisualizer.ax1 (MapVisualizer.visualize_comparison self h).2
  = List.map
      (fun e =>
         MapVisualizer.mk_patch
           (if MapElement.moved (h !!! e)
            then MapElement.original_bbox (h !!! e)
            else MapElement.bbox (h !!! e))
           (default "#95A5A6"%string
              (MapVisualizer.COLORS !! MapElement.type (h !!! e)))
           (if MapVisualizer.drawn_fixed (MapElement.type (h !!! e))
            then MapVisualizer.Filled else MapVisualizer.Outlined))
      (MapVisualizer.elements self).
Proof.
  unfold MapVisualizer.visualize_comparison.
  destruct (draw_before_fold h (MapVisualizer.elements self) h []
              (fun r => eq_refl)) as [_ Hax].
  destruct (fold_left MapVisualizer.draw_before _ _) as [h1 ax1].
  exact Hax.
Qed.

(** X18. [visualize_comparison] leaves every element as it found it,
    although it assigns [bbox] while it draws.  The left panel receives
    one patch per element, in order, at [original_bbox] for the elements
    whose [moved] flag is set and at [bbox] for the others; the right
    panel receives one patch per element at [bbox], followed by a dashed
    rectangle at [original_bbox] when the element was moved; the count
    written under the left panel is [_count_overlaps] of the current
    boxes, those of the right panel. *)
Theorem visualize_comparison_panels (self : MapVisualizer.t) (h : store) :
  let out := MapVisualizer.visualize_comparison self h in
  (forall r, out.1 !!! r = h !!! r)
  /\ MapVisualizer.ax1 out.2
     = List.map
         (fun e =>
            MapVisualizer.mk_patch
              (if MapElement.moved (h !!! e)
               then MapElement.original_bbox (h !!! e)
               else MapElement.bbox (h !!! e))
              (default "#95A5A6"%string
                 (MapVisualizer.COLORS !! MapElement.type (h !!! e)))
              (if MapVisualizer.drawn_fixed (MapElement.type (h !!! e))
               then MapVisualizer.Filled else MapVisualizer.Outlined))
         (MapVisualizer.elements self)
  /\ MapVisualizer.overlap_count out.2 = MapVisualizer._count_overlaps self h
  /\ MapVisualizer.ax2 out.2
     = flat_map
         (fun e =>
            MapVisualizer.mk_patch
              (MapElement.bbox (h !!! e))
              (default "#95A5A6"%string
                 (MapVisualizer.COLORS !! MapElement.type (h !!! e)))
              (if MapVisualizer.drawn_fixed (MapElement.type (h !!! e))
               then MapVisualizer.Filled else MapVisualizer.Outlined)
            :: (if MapElement.moved (h !!! e)
                then [MapVisualizer.mk_patch
                        (MapElement.original_bbox (h !!! e))
                        "gray"%string MapVisualizer.Dashed]
                else []))
         (MapVisualizer.elements self).
Proof.
  cbv zeta. unfold MapVisualizer.visualize_comparison.
  destruct (draw_before_fold h (MapVisualizer.elements self) h []
              (fun r => eq_refl)) as [Hpt Hax].
  destruct (fold_left MapVisualizer.draw_before _ _) as [h1 ax1].
  cbn [fst snd MapVisualizer.ax1 MapVisualizer.ax2
       MapVisualizer.overlap_count] in *.
  split_and!.
  - exact Hpt.
  - exact Hax.
  - unfold MapVisualizer._count_overlaps. by apply count_overlaps_loop_ext.
  - by rewrite (draw_after_fold h h1 _ Hpt).
Qed.

(** ** The left panel after a resolution *)

Lemma resolve_clutter_step (h0 : store) (els : list ref) (h : store) (r : ref) :
  evolves h0 h ->
  let h' := (MapDeclutterEngine.resolve_clutter
               (MapDeclutterEngine.init h0 els) h).2 in
  h' !!! r = h !!! r \/ MapElement.moved (h' !!! r) = true.
Proof.
  intros He. cbv zeta. rewrite (resolve_clutter_closed h0 els h He). cbn [snd].
  destruct (scan_spec h0 els h He) as (_ & Hin & Hout & _).
  destruct (in_dec Nat.eq_dec r
              (MapDeclutterEngine.movable_elements
                 (MapDeclutterEngine.init h0 els))) as [Hm|Hm].
  - rewrite (Hin r Hm). unfold settle.
    destruct (target (MapDeclutterEngine.init h0 els) h r); [by right | by left].
  - left. by apply Hout.
Qed.

Lemma resolve_times_step (h0 : store) (els : list ref) (k : nat) (r : ref) :
  forall h : store,
    evolves h0 h ->
    let h' := resolve_times (MapDeclutterEngine.init h0 els) k h in
    h' !!! r = h !!! r \/ MapElement.moved (h' !!! r) = true.
Proof.
  induction k as [|k IH]; intros h He; cbv zeta; cbn [resolve_times];
    [by left|].
  assert (He1 := resolve_clutter_evolves h0 els h He).
  destruct (IH _ He1) as [Hsame|Hmv]; [|by right].
  rewrite Hsame. apply resolve_clutter_step. exact He.
Qed.

Lemma init_drawn_fixed (i t : string) (b : BoundingBox.t) :
  MapVisualizer.drawn_fixed t = negb (MapElement.movable (MapElement.init i t b)).
Proof.
  unfold MapElement.init. cbn [MapElement.movable].
  rewrite PRIORITY_lookup. unfold table_priority, MapVisualizer.drawn_fixed.
  cbn [existsb].
  repeat case_decide; subst; try reflexivity.
  rewrite (proj2 (String.eqb_neq t "road")), (proj2 (String.eqb_neq t "river"));
    done.
Qed.

(** X19. For elements built by the constructor and then resolved any
    number of times, the left panel of [visualize_comparison] shows the
    scene as it was built: one patch per element, in order, at the box the
    element was built with, filled exactly for the fixed elements and
    outlined for the movable ones. *)
Theorem before_panel_shows_construction (h0 : store) (els : list ref)
    (k : nat) :
  (forall r, In r els ->
     exists i t b, h0 !!! r = MapElement.init i t b) ->
  let h' := resolve_times (MapDeclutterEngine.init h0 els) k h0 in
  let out := MapVisualizer.visualize_comparison (MapVisualizer.mk els) h' in
  List.map MapVisualizer.geometry (MapVisualizer.ax1 out.2)
  = List.map (fun r => MapElement.bbox (h0 !!! r)) els
  /\ List.map MapVisualizer.patch_kind (MapVisualizer.ax1 out.2)
     = List.map
         (fun r => if MapElement.movable (h0 !!! r)
                   then MapVisualizer.Outlined else MapVisualizer.Filled)
         els.
Proof.
  intros Hbuilt. cbv zeta.
  assert (He := resolve_times_evolves h0 els k h0 (evolves_refl h0)).
  rewrite visualize_before, !List.map_map. cbn [MapVisualizer.elements]. split; apply map_ext_in; intros r Hr;
    cbn [MapVisualizer.geometry MapVisualizer.patch_kind];
    destruct (Hbuilt r Hr) as (i & t & b & Hinit);
    destruct (He r) as [(_ & Hty & _ & _ & Horig) _].
  - destruct (resolve_times_step h0 els k r h0 (evolves_refl h0)) as [Hs|Hmv].
    + rewrite Hs, Hinit. cbn. by destruct b.
    + rewrite Hmv, Horig, Hinit. cbn. by destruct b.
  - rewrite Hty, Hinit. cbn [MapElement.type MapElement.init].
    rewrite (init_drawn_fixed i t b).
    by destruct (MapElement.movable (MapElement.init i t b)).
Qed.

Lemma built_demo (r : ref) :
  In r demo_refs -> exists i t b, demo_store !!! r = MapElement.init i t b.
Proof.
  unfold demo_refs. cbn [seq In]. intros Hr.
  repeat (destruct Hr as [<-|Hr];
          [eexists _, _, (BoundingBox.mk _ _ _ _); reflexivity|]).
  destruct Hr.
Defined.

Lemma before_panel_shows_construction_witness :
  List.map MapVisualizer.geometry
    (MapVisualizer.ax1
       (MapVisualizer.visualize_comparison (MapVisualizer.mk demo_refs)
          (resolve_times (MapDeclutterEngine.init demo_store demo_refs) 1
             demo_store)).2)
  = List.map (fun r => MapElement.bbox (demo_store !!! r)) demo_refs.
Proof.
  exact (proj1 (before_panel_shows_construction demo_store demo_refs 1
                  built_demo)).
Defined.

(** ** The percentage at its two ends

    The conversion of a count below 2^53 is a finite double, so that the
    quotient of a count by itself is exactly 1 and the quotient of 0 by a
    count is exactly 0.  The operations on doubles are read through their
    specification in [FloatAxioms]. *)

Lemma digits2_pos_lower (p : positive) :
  2 ^ (Zpos (digits2_pos p) - 1) <= Zpos p.
Proof.
  induction p as [p IH|p IH|]; cbn [digits2_pos].
  - rewrite Pos2Z.inj_succ.
    replace (Z.succ (Zpos (digits2_pos p)) - 1) with (Z.succ (Zpos (digits2_pos p) - 1)) by lia.
    rewrite Z.pow_succ_r by lia. lia.
  - rewrite Pos2Z.inj_succ.
    replace (Z.succ (Zpos (digits2_pos p)) - 1) with (Z.succ (Zpos (digits2_pos p) - 1)) by lia.
    rewrite Z.pow_succ_r by lia. lia.
  - cbn. lia.
Qed.

Lemma digits2_pos_iter (p k : positive) :
  digits2_pos (Pos.iter xO p k) = (digits2_pos p + k)%positive.
Proof.
  induction k as [|k IH] using Pos.peano_ind.
  - cbn. lia.
  - rewrite Pos.iter_succ. cbn [digits2_pos]. rewrite IH. lia.
Qed.

Lemma binary_round_aux_exact (mz : positive) (ez : Z) :
  digits2_pos mz = 53%positive -> -52 <= ez <= 0 ->
  binary_round_aux prec emax false (Zpos mz) ez loc_Exact
  = S754_finite false mz ez.
Proof.
  intros Hd He.
  assert (Hf : fexp prec emax (53 + ez) = ez).
  { unfold fexp, emin, prec, emax. lia. }
  unfold binary_round_aux, shr_fexp. cbn [Zdigits2 shr_record_of_loc].
  rewrite Hd, Hf, Z.sub_diag. cbn [shr shr_m loc_of_shr_record round_nearest_even].
  cbn [Zdigits2 shr_record_of_loc]. rewrite Hd, Hf, Z.sub_diag.
  cbn [shr shr_m].
  replace (ez <=? emax - prec) with true; [reflexivity|].
  symmetry. apply Z.leb_le. unfold emax, prec. lia.
Qed.

Lemma float_of_int_finite (n : Z) :
  0 < n < 2 ^ 53 ->
  exists m e, Prim2SF (float_of_int n) = S754_finite false m e.
Proof.
  intros Hn. unfold float_of_int. rewrite of_uint63_spec, of_Z_spec.
  assert (HwB : wB = 9223372036854775808) by reflexivity.
  rewrite Z.mod_small by (rewrite HwB; lia).
  destruct n as [|p|p]; try lia. cbn [binary_normalize].
  unfold binary_round.
  assert (Hlow := digits2_pos_lower p).
  assert (Hd : Zpos (digits2_pos p) <= 53).
  { destruct (Z_le_gt_dec (Zpos (digits2_pos p)) 53) as [?|Hgt]; [done|].
    assert (2 ^ 53 <= 2 ^ (Zpos (digits2_pos p) - 1))
      by (apply Z.pow_le_mono_r; lia).
    lia. }
  assert (Hf : fexp prec emax (Zpos (digits2_pos p) + 0)
               = Zpos (digits2_pos p) - 53).
  { unfold fexp, emin, prec, emax. lia. }
  rewrite Hf. unfold shl_align.
  destruct (Zpos (digits2_pos p) - 53 - 0) as [|k|k] eqn:Ek; try lia.
  - eexists _, _. apply binary_round_aux_exact; [|lia].
    apply Pos2Z.inj. lia.
  - eexists _, _. apply binary_round_aux_exact; [|lia].
    rewrite digits2_pos_iter. lia.
Qed.

Lemma div_self (n : Z) :
  0 < n < 2 ^ 53 -> PrimFloat.div (float_of_int n) (float_of_int n) = 1%float.
Proof.
  intros Hn. destruct (float_of_int_finite n Hn) as (m & e & Hm).
  apply Prim2SF_inj. rewrite FloatAxioms.div_spec, Hm.
  unfold SF64div, SFdiv, SFdiv_core_binary.
  replace (Zdigits2 (Zpos m) + e - (Zdigits2 (Zpos m) + e)) with 0 by lia.
  rewrite Z.sub_diag.
  change (Z.min (fexp prec emax 0) 0) with (-53).
  change (0 - -53) with 53.
  cbv iota.
  rewrite Z.shiftl_mul_pow2 by lia.
  assert (Hq : Z.div_eucl (Zpos m * 2 ^ 53) (Zpos m) = (2 ^ 53, 0)).
  { assert (H1 := Z.div_mul (2 ^ 53) (Zpos m) ltac:(lia)).
    assert (H2 := Z.mod_mul (2 ^ 53) (Zpos m) ltac:(lia)).
    unfold Z.div, Z.modulo in H1, H2. rewrite Z.mul_comm in H1, H2.
    destruct (Z.div_eucl (Zpos m * 2 ^ 53) (Zpos m)) as [q r].
    cbn [fst snd] in *. congruence. }
  rewrite Hq.
  assert (Hloc : new_location (Zpos m) 0 = loc_Exact).
  { unfold new_location, new_location_even, new_location_odd.
    by destruct (Z.even (Zpos m)). }
  rewrite Hloc. reflexivity.
Qed.

Lemma div_zero (n : Z) :
  0 < n < 2 ^ 53 -> PrimFloat.div (float_of_int 0) (float_of_int n) = 0%float.
Proof.
  intros Hn. destruct (float_of_int_finite n Hn) as (m & e & Hm).
  apply Prim2SF_inj. rewrite FloatAxioms.div_spec, Hm. reflexivity.
Qed.

(** X20. With between 1 and 2^53 - 1 movable elements, [get_statistics]
    reports a [move_percentage] of exactly [100.0] when every movable
    element has its [moved] flag set and of exactly [0.0] when none has:
    at the two ends the division rounds nothing. *)
Theorem percentage_extremes (self : MapDeclutterEngine.t) (h : store) :
  let s := MapDeclutterEngine.get_statistics self h in
  0 < MapDeclutterEngine.n_movable_elements s < 2 ^ 53 ->
  (MapDeclutterEngine.elements_moved s = MapDeclutterEngine.n_movable_elements s
   -> MapDeclutterEngine.move_percentage s = PyFloat 100%float)
  /\ (MapDeclutterEngine.elements_moved s = 0
      -> MapDeclutterEngine.move_percentage s = PyFloat 0%float).
Proof.
  cbv zeta. unfold MapDeclutterEngine.get_statistics.
  cbn [MapDeclutterEngine.n_movable_elements MapDeclutterEngine.elements_moved
       MapDeclutterEngine.move_percentage].
  intros Hn.
  replace (0 <? MapDeclutterEngine.len
                  (MapDeclutterEngine.movable_elements self)) with true
    by (symmetry; apply Z.ltb_lt; lia).
  unfold mul_int, truediv. split; intros ->.
  - rewrite (div_self _ Hn). reflexivity.
  - rewrite (div_zero _ Hn). reflexivity.
Qed.

Lemma percentage_extremes_witness :
  MapDeclutterEngine.move_percentage
    (MapDeclutterEngine.get_statistics
       (MapDeclutterEngine.init demo_store demo_refs)
       (MapDeclutterEngine.resolve_clutter
          (MapDeclutterEngine.init demo_store demo_refs) demo_store).2)
  = PyFloat 100%float.
Proof.
  apply (percentage_extremes (MapDeclutterEngine.init demo_store demo_refs)).
  - vm_compute. split; reflexivity.
  - vm_compute. reflexivity.
Defined.
